(** * Nucleic-acid sequence classes of [sequences.py]

    A shallow embedding of the three classes [Sequence], [DNASequence] and
    [RNASequence]: objects are records of their two instance attributes,
    methods are functions in an exception monad, [print] appends to a list
    of printed lines, and the quality score is a Python number (an
    unbounded [int] or a binary64 [float]). *)

From Stdlib Require Import ZArith Lia List String Ascii Bool SpecFloat.
From Stdlib Require Import DecimalString DecimalZ DecimalPos.
Import ListNotations.

Local Open Scope string_scope.
Local Open Scope Z_scope.

(* ================================================================= *)
(** ** Exceptions and outcomes *)

(** The exceptions the module can raise: the explicit
    [raise Exception(...)] of [RNASequence.__init__], and the ones the
    interpreter raises on a failed dictionary lookup, a missing instance
    attribute, a division by zero and a float overflow. *)
Inductive exn : Type :=
| Exception (message : string)
| KeyError (key : ascii)
| AttributeError (attribute : string)
| ZeroDivisionError
| OverflowError.

Inductive outcome (A : Type) : Type :=
| Return (a : A)
| Raise (e : exn).

Arguments Return {A} a.
Arguments Raise {A} e.

Definition bind {A B : Type} (m : outcome A) (k : A -> outcome B) : outcome B :=
  match m with
  | Return a => k a
  | Raise e => Raise e
  end.

Notation "x <- m ;; k" := (bind m (fun x => k))
  (at level 61, m at next level, right associativity).

(* ================================================================= *)
(** ** Python numbers *)

(** A [float] is an IEEE 754 binary64 value; the operations are the
    round-to-nearest-even ones of [SpecFloat]. *)
Definition prec : Z := 53.
Definition emax : Z := 1024.

Definition float : Type := spec_float.

Definition is_finite (f : float) : bool :=
  match f with
  | S754_zero _ | S754_finite _ _ _ => true
  | S754_infinity _ | S754_nan => false
  end.

Definition is_zero (f : float) : bool :=
  match f with
  | S754_zero _ => true
  | _ => false
  end.

Inductive number : Type :=
| PyInt (z : Z)
| PyFloat (f : float).

(** [float(z)] for an [int]: the nearest double, ties to even;
    [OverflowError] when that is beyond the largest double. *)
Definition int_to_float (z : Z) : outcome float :=
  let f := binary_normalize prec emax z 0 false in
  if is_finite f then Return f else Raise OverflowError.

Definition to_float (x : number) : outcome float :=
  match x with
  | PyInt z => int_to_float z
  | PyFloat f => Return f
  end.

(** [x * y]: exact on two ints, otherwise both operands become floats. *)
Definition py_mul (x y : number) : outcome number :=
  match x, y with
  | PyInt a, PyInt b => Return (PyInt (a * b))
  | _, _ =>
      a <- to_float x ;;
      b <- to_float y ;;
      Return (PyFloat (SFmul prec emax a b))
  end.

(** [x + y]. *)
Definition py_add (x y : number) : outcome number :=
  match x, y with
  | PyInt a, PyInt b => Return (PyInt (a + b))
  | _, _ =>
      a <- to_float x ;;
      b <- to_float y ;;
      Return (PyFloat (SFadd prec emax a b))
  end.

(** The quotient of two ints ([b] not zero), correctly rounded to a double:
    the integers are divided as mantissas with exponent 0 and the quotient
    is rounded once, from its remainder. *)
Definition int_quotient (a b : Z) : float :=
  let '(q, e, l) := SFdiv_core_binary prec emax (Z.abs a) 0 (Z.abs b) 0 in
  binary_round_aux prec emax (xorb (a <? 0) (b <? 0)) q e l.

(** [x / y], true division: the result is always a float. A zero divisor
    raises [ZeroDivisionError]; an int quotient too large for a double
    raises [OverflowError]. *)
Definition py_truediv (x y : number) : outcome number :=
  match x, y with
  | PyInt a, PyInt b =>
      if b =? 0 then Raise ZeroDivisionError
      else
        let f := int_quotient a b in
        if is_finite f then Return (PyFloat f) else Raise OverflowError
  | _, _ =>
      a <- to_float x ;;
      b <- to_float y ;;
      if is_zero b then Raise ZeroDivisionError
      else Return (PyFloat (SFdiv prec emax a b))
  end.

(** Exact comparison of an int with a finite float [m * 2^e]. *)
Definition compare_int_scaled (z m e : Z) : comparison :=
  if 0 <=? e then z ?= m * 2 ^ e else z * 2 ^ (- e) ?= m.

Definition compare_int_float (z : Z) (f : float) : option comparison :=
  match f with
  | S754_nan => None
  | S754_infinity s => Some (if s then Gt else Lt)
  | S754_zero _ => Some (z ?= 0)
  | S754_finite s m e => Some (compare_int_scaled z (cond_Zopp s (Zpos m)) e)
  end.

(** Python compares an int with a float by value, without rounding the
    int; a comparison with NaN is false. *)
Definition py_compare (x y : number) : option comparison :=
  match x, y with
  | PyInt a, PyInt b => Some (a ?= b)
  | PyFloat f, PyFloat g => SFcompare f g
  | PyInt a, PyFloat g => compare_int_float a g
  | PyFloat f, PyInt b => option_map CompOpp (compare_int_float b f)
  end.

Definition py_lt (x y : number) : bool :=
  match py_compare x y with
  | Some Lt => true
  | _ => false
  end.

Definition py_le (x y : number) : bool :=
  match py_compare x y with
  | Some (Lt | Eq) => true
  | _ => false
  end.

(** [min(x, y)] and [max(x, y)] keep the first argument unless the second
    is strictly smaller (larger). *)
Definition py_min (x y : number) : number := if py_lt y x then y else x.
Definition py_max (x y : number) : number := if py_lt x y then y else x.

(** [x == y] on numbers. *)
Definition py_eq (x y : number) : bool :=
  match py_compare x y with
  | Some Eq => true
  | _ => false
  end.

(** [str(z)] for an int: its decimal digits, with a minus sign when negative. *)
Definition str_int (z : Z) : string := NilZero.string_of_int (Z.to_int z).

(** ['{}'.format(x)] for a number. The text of a float is the
    interpreter's [repr], which is taken as the parameter [float_repr]. *)
Definition format_number (float_repr : float -> string) (x : number) : string :=
  match x with
  | PyInt z => str_int z
  | PyFloat f => float_repr f
  end.

(* ================================================================= *)
(** ** Strings, sets and dictionaries *)

(** The characters of a [str]. Only equality with the five letters A, C,
    G, T and U is ever tested, so any other character stands for all
    the characters outside the two alphabets. *)
Definition chars (s : string) : list ascii := list_ascii_of_string s.

Definition len (s : string) : Z := Z.of_nat (String.length s).

(** [set(s)]: the distinct characters of [s]. *)
Definition py_set (s : string) : list ascii := nodup ascii_dec (chars s).

Definition mem (c : ascii) (xs : list ascii) : bool := existsb (Ascii.eqb c) xs.

(** [xs <= ys] on sets. *)
Definition issubset (xs ys : list ascii) : bool :=
  forallb (fun c => mem c ys) xs.

(** [d[k]] on a dictionary with one-character keys and values. *)
Fixpoint lookup (d : list (ascii * ascii)) (k : ascii) : outcome ascii :=
  match d with
  | [] => Raise (KeyError k)
  | (k', v) :: rest => if Ascii.eqb k k' then Return v else lookup rest k
  end.

(* ================================================================= *)
(** ** Objects *)

Inductive class : Type := CSequence | CDNASequence | CRNASequence.

(** An instance: its class and the two attributes the module ever sets.
    An attribute that was never assigned is [None]. *)
Record object : Type := Object {
  ob_class : class;
  ob_sequence : option string;
  ob_quality : option number
}.

(** [object.__new__(cls)]: an instance with an empty attribute dictionary. *)
Definition new (c : class) : object := Object c None None.

Definition get_sequence (o : object) : outcome string :=
  match ob_sequence o with
  | Some s => Return s
  | None => Raise (AttributeError "sequence")
  end.

Definition get_quality (o : object) : outcome number :=
  match ob_quality o with
  | Some q => Return q
  | None => Raise (AttributeError "quality")
  end.

Definition set_sequence (o : object) (s : string) : object :=
  Object (ob_class o) (Some s) (ob_quality o).

Definition set_quality (o : object) (q : number) : object :=
  Object (ob_class o) (ob_sequence o) (Some q).

(** What [print] has written, one entry per call. *)
Definition stdout : Type := list string.

Definition print (x : string) (out : stdout) : stdout := (out ++ [x])%list.

(* ================================================================= *)
(** ** class Sequence *)

Module Sequence.

(** [def __init__(self, sequence='', quality=0)] *)
Definition __init__ (self : object) (sequence : string) (quality : number)
  : object :=
  set_quality (set_sequence self sequence) quality.

(** The call [Sequence(sequence, quality)]. *)
Definition call (sequence : string) (quality : number) : object :=
  __init__ (new CSequence) sequence quality.

(** The quality expression of [__add__], evaluated left to right on the
    attributes already read:
    [(len(s1) * q1 + len(s2) * q2) / (len(s1) + len(s2))]. *)
Definition weighted_quality (s1 : string) (q1 : number)
                            (s2 : string) (q2 : number) : outcome number :=
  t1 <- py_mul (PyInt (len s1)) q1 ;;
  t2 <- py_mul (PyInt (len s2)) q2 ;;
  total <- py_add t1 t2 ;;
  py_truediv total (PyInt (len s1 + len s2)).

(** [def __add__(self, other)] *)
Definition __add__ (self other : object) : outcome object :=
  let result := call "" (PyInt 0) in
  s1 <- get_sequence self ;;
  s2 <- get_sequence other ;;
  let result := set_sequence result (s1 ++ s2) in
  s1' <- get_sequence self ;;
  q1 <- get_quality self ;;
  s2' <- get_sequence other ;;
  q2 <- get_quality other ;;
  quality <- weighted_quality s1' q1 s2' q2 ;;
  let result := set_quality result quality in
  Return result.

(** [def __str__(self)]:
    ['Sequence: {}\nQuality: {}'.format(self.sequence, self.quality)]. *)
Definition __str__ (float_repr : float -> string) (self : object)
  : outcome string :=
  s <- get_sequence self ;;
  q <- get_quality self ;;
  Return ("Sequence: " ++ s ++ String "010" "Quality: "
            ++ format_number float_repr q)%string.

End Sequence.

(* ================================================================= *)
(** ** class RNASequence(Sequence) *)

Module RNASequence.

Definition alphabet : list ascii := ["A"; "C"; "G"; "U"]%char.

(** [def __init__(self, sequence='', quality=0)] *)
Definition __init__ (self : object) (sequence : string) (quality : number)
  : outcome object :=
  if issubset (py_set sequence) alphabet
  then Return (Sequence.__init__ self sequence quality)
  else Raise (Exception "The input sequence isn't valid RNA").

(** The call [RNASequence(sequence, quality)]. *)
Definition call (sequence : string) (quality : number) : outcome object :=
  __init__ (new CRNASequence) sequence quality.

End RNASequence.

(* ================================================================= *)
(** ** class DNASequence(Sequence) *)

Module DNASequence.

Definition alphabet : list ascii := ["A"; "C"; "G"; "T"]%char.

(** [def __init__(self, sequence='', quality=0)]: prints its argument,
    and a message instead of initialising when the check fails. It returns
    normally on both branches. *)
Definition __init__ (self : object) (sequence : string) (quality : number)
  : object * stdout :=
  let out := print sequence [] in
  if issubset (py_set sequence) alphabet
  then (Sequence.__init__ self sequence quality, out)
  else (self, print "The input sequence isn't valid DNA input" out).

(** The call [DNASequence(sequence, quality)]. *)
Definition call (sequence : string) (quality : number) : object * stdout :=
  __init__ (new CDNASequence) sequence quality.

Definition complement : list (ascii * ascii) :=
  [("A", "T"); ("T", "A"); ("C", "G"); ("G", "C")]%char.

(** The loop [for base in reversed(...): rc_seq = rc_seq + complement[base]],
    over the bases still to visit. *)
Fixpoint rc_loop (bases : list ascii) (rc_seq : string) : outcome string :=
  match bases with
  | [] => Return rc_seq
  | base :: rest =>
      c <- lookup complement base ;;
      rc_loop rest (rc_seq ++ String c "")
  end.

(** [def reverse_complement(self)] *)
Definition reverse_complement (self : object) : outcome object :=
  let rc_seq := "" in
  s <- get_sequence self ;;
  rc_seq <- rc_loop (rev (chars s)) rc_seq ;;
  q <- get_quality self ;;
  Return (Sequence.call rc_seq q).

(** [base if base != 'T' else 'U'] *)
Definition transcribe_base (base : ascii) : ascii :=
  if negb (Ascii.eqb base "T") then base else "U"%char.

(** [def transcribe(self)] *)
Definition transcribe (self : object) : outcome object :=
  s <- get_sequence self ;;
  let transcribed := string_of_list_ascii (map transcribe_base (chars s)) in
  q <- get_quality self ;;
  RNASequence.call transcribed q.

End DNASequence.

(** Attribute lookup of [reverse_complement] on an instance: only
    [DNASequence] defines the method. *)
Definition method_reverse_complement (o : object) : outcome object :=
  match ob_class o with
  | CDNASequence => DNASequence.reverse_complement o
  | _ => Raise (AttributeError "reverse_complement")
  end.

(** Attribute lookup of [transcribe] on an instance, likewise. *)
Definition method_transcribe (o : object) : outcome object :=
  match ob_class o with
  | CDNASequence => DNASequence.transcribe o
  | _ => Raise (AttributeError "transcribe")
  end.

(* ================================================================= *)
(** ** Alphabets *)

(** Every character of [s] belongs to [al]. *)
Definition over (al : list ascii) (s : string) : Prop :=
  forall c, In c (chars s) -> In c al.

(** Some character of [s] does not belong to [al]. *)
Definition has_outsider (al : list ascii) (s : string) : Prop :=
  exists c, In c (chars s) /\ ~ In c al.

(** The pairing A<->T, C<->G as a total function on characters. *)
Definition pairing (c : ascii) : ascii :=
  if Ascii.eqb c "A" then "T"
  else if Ascii.eqb c "T" then "A"
  else if Ascii.eqb c "C" then "G"
  else if Ascii.eqb c "G" then "C"
  else c.

(** [needle] occurs somewhere in [hay]. *)
Definition occurs_in (needle hay : string) : bool :=
  match String.index 0 needle hay with
  | Some _ => true
  | None => false
  end.

(** An error message points at the input [s] rejected for alphabet [al]:
    it quotes [s] in full or shows one of its characters outside [al]. *)
Definition names_input (al : list ascii) (message s : string) : bool :=
  occurs_in s message
  || existsb (fun c => negb (mem c al) && mem c (chars message)) (chars s).

Definition message_of (e : exn) : string :=
  match e with
  | Exception m => m
  | _ => ""
  end.

(* ================================================================= *)
(** ** Strings and sets: basic facts *)

Lemma chars_append (s1 s2 : string) :
  chars (s1 ++ s2) = (chars s1 ++ chars s2)%list.
Proof.
  induction s1 as [|c s1 IH]; simpl; [reflexivity|].
  unfold chars in *; simpl; now rewrite IH.
Qed.

Lemma chars_of_list (l : list ascii) : chars (string_of_list_ascii l) = l.
Proof. apply list_ascii_of_string_of_list_ascii. Qed.

Lemma of_list_chars (s : string) : string_of_list_ascii (chars s) = s.
Proof. apply string_of_list_ascii_of_string. Qed.

Lemma length_chars (s : string) : List.length (chars s) = String.length s.
Proof. induction s as [|c s IH]; simpl; [reflexivity|now rewrite <- IH]. Qed.

Lemma get_chars (s : string) (i : nat) : String.get i s = nth_error (chars s) i.
Proof.
  revert i; induction s as [|c s IH]; intros [|i]; simpl; auto.
Qed.

Lemma append_empty_r (s : string) : s ++ "" = s.
Proof. induction s as [|c s IH]; simpl; [reflexivity|now rewrite IH]. Qed.

Lemma append_assoc (s1 s2 s3 : string) : (s1 ++ s2) ++ s3 = s1 ++ (s2 ++ s3).
Proof. induction s1 as [|c s1 IH]; simpl; [reflexivity|now rewrite IH]. Qed.

Lemma mem_In (c : ascii) (xs : list ascii) : mem c xs = true <-> In c xs.
Proof.
  unfold mem; rewrite existsb_exists; split.
  - intros (x & Hx & E). apply Ascii.eqb_eq in E. now subst.
  - intros H. exists c. split; [assumption|apply Ascii.eqb_refl].
Qed.

Lemma issubset_set_true (al : list ascii) (s : string) :
  issubset (py_set s) al = true <-> over al s.
Proof.
  unfold issubset, py_set, over. rewrite forallb_forall. split.
  - intros H c Hc. apply mem_In, H, nodup_In, Hc.
  - intros H c Hc. apply mem_In, H. now apply nodup_In in Hc.
Qed.

Lemma issubset_set_false (al : list ascii) (s : string) :
  has_outsider al s -> issubset (py_set s) al = false.
Proof.
  intros (c & Hc & Hout).
  destruct (issubset (py_set s) al) eqn:E; [|reflexivity].
  apply issubset_set_true in E. elim Hout. now apply E.
Qed.

(** Discharges [over al s] and [~ In c al] on literals. *)
Ltac by_cases_on_chars :=
  let c := fresh "c" in
  let H := fresh "H" in
  first
    [ intros c H; simpl in H;
      repeat (destruct H as [H|H]; [subst c; simpl; tauto|]); contradiction
    | intros H; simpl in H;
      repeat (destruct H as [H|H]; [discriminate H|]); contradiction ].

(* ================================================================= *)
(** ** Construction *)

Lemma DNASequence_call_valid (s : string) (q : number) :
  over DNASequence.alphabet s ->
  DNASequence.call s q = (Object CDNASequence (Some s) (Some q), [s]).
Proof.
  intros H. unfold DNASequence.call, DNASequence.__init__.
  apply issubset_set_true in H. now rewrite H.
Qed.

Lemma DNASequence_call_invalid (s : string) (q : number) :
  has_outsider DNASequence.alphabet s ->
  DNASequence.call s q =
    (Object CDNASequence None None,
     [s; "The input sequence isn't valid DNA input"]).
Proof.
  intros H. unfold DNASequence.call, DNASequence.__init__.
  now rewrite (issubset_set_false _ _ H).
Qed.

Lemma RNASequence_call_valid (s : string) (q : number) :
  over RNASequence.alphabet s ->
  RNASequence.call s q = Return (Object CRNASequence (Some s) (Some q)).
Proof.
  intros H. unfold RNASequence.call, RNASequence.__init__.
  apply issubset_set_true in H. now rewrite H.
Qed.

(** C7. For every string [s] over {A,C,G,T} and every quality [q], the
    call [DNASequence(s, q)] succeeds (it returns an instance, having
    printed [s]) and the instance has [sequence == s], [quality == q]. *)
Theorem DNASequence_construction_succeeds (s : string) (q : number) :
  over DNASequence.alphabet s ->
  exists o out,
    DNASequence.call s q = (o, out)
    /\ ob_class o = CDNASequence
    /\ get_sequence o = Return s
    /\ get_quality o = Return q.
Proof.
  intros H. rewrite (DNASequence_call_valid s q H).
  eexists; eexists; repeat split.
Qed.

Lemma DNASequence_construction_succeeds_witness :
  exists o out,
    DNASequence.call "AGT" (PyInt 27) = (o, out)
    /\ ob_class o = CDNASequence
    /\ get_sequence o = Return "AGT"
    /\ get_quality o = Return (PyInt 27).
Proof.
  apply (DNASequence_construction_succeeds "AGT" (PyInt 27)).
  by_cases_on_chars.
Defined.

(** C1. On the invalid input ["AXG"] the call [DNASequence("AXG", 27)]
    raises nothing: it prints the input and a complaint and returns an
    instance of [DNASequence] that has neither a [sequence] nor a
    [quality] attribute, so that reading them raises [AttributeError]. *)
Theorem DNASequence_invalid_input_returns_bare_instance :
  has_outsider DNASequence.alphabet "AXG"
  /\ DNASequence.call "AXG" (PyInt 27) =
       (Object CDNASequence None None,
        ["AXG"; "The input sequence isn't valid DNA input"])
  /\ get_sequence (fst (DNASequence.call "AXG" (PyInt 27))) =
       Raise (AttributeError "sequence")
  /\ RNASequence.call "AXG" (PyInt 27) =
       Raise (Exception "The input sequence isn't valid RNA").
Proof.
  split; [|repeat split].
  exists "X"%char. split; [simpl; tauto|by_cases_on_chars].
Qed.

(** C8, as amended. For every string [s] with a character outside
    {A,C,G,U} and every quality [q], the call [RNASequence(s, q)] raises
    an [Exception] and yields no instance; its message is the same text
    for every input, which names the variant ("RNA") only. *)
Theorem RNASequence_invalid_input_raises (s : string) (q : number) :
  has_outsider RNASequence.alphabet s ->
  RNASequence.call s q = Raise (Exception "The input sequence isn't valid RNA")
  /\ occurs_in "RNA" "The input sequence isn't valid RNA" = true.
Proof.
  intros H. split; [|reflexivity].
  unfold RNASequence.call, RNASequence.__init__.
  now rewrite (issubset_set_false _ _ H).
Qed.

Lemma RNASequence_invalid_input_raises_witness :
  RNASequence.call "AXG" (PyInt 30) =
    Raise (Exception "The input sequence isn't valid RNA")
  /\ occurs_in "RNA" "The input sequence isn't valid RNA" = true.
Proof.
  apply (RNASequence_invalid_input_raises "AXG" (PyInt 30)).
  exists "X"%char. split; [simpl; tauto|by_cases_on_chars].
Defined.

(** C8 as stated fails on ["AXG"]: no exception raised by
    [RNASequence("AXG", 30)] has a message that names the variant and
    also quotes the input or one of its invalid characters. *)
Lemma RNASequence_error_omits_input :
  has_outsider RNASequence.alphabet "AXG"
  /\ ~ (exists e,
          RNASequence.call "AXG" (PyInt 30) = Raise e
          /\ occurs_in "RNA" (message_of e) = true
          /\ names_input RNASequence.alphabet (message_of e) "AXG" = true).
Proof.
  split.
  - exists "X"%char. split; [simpl; tauto|by_cases_on_chars].
  - intros (e & He & _ & Hin).
    vm_compute in He. injection He as <-. vm_compute in Hin. discriminate Hin.
Qed.

(* ================================================================= *)
(** ** reverse_complement *)

Lemma lookup_complement (c : ascii) :
  lookup DNASequence.complement c =
    if mem c DNASequence.alphabet then Return (pairing c) else Raise (KeyError c).
Proof.
  unfold pairing, mem; simpl.
  destruct (Ascii.eqb c "A"), (Ascii.eqb c "T"),
           (Ascii.eqb c "C"), (Ascii.eqb c "G"); reflexivity.
Qed.

Lemma pairing_involutive (c : ascii) :
  In c DNASequence.alphabet -> pairing (pairing c) = c.
Proof.
  simpl; intros [<-|[<-|[<-|[<-|[]]]]]; reflexivity.
Qed.

Lemma pairing_closed (c : ascii) :
  In c DNASequence.alphabet -> In (pairing c) DNASequence.alphabet.
Proof.
  simpl; intros [<-|[<-|[<-|[<-|[]]]]]; simpl; tauto.
Qed.

(** On bases that all have a complement, the loop appends their
    complements, in the order visited, to the accumulator. *)
Lemma rc_loop_valid (bases : list ascii) :
  (forall c, In c bases -> In c DNASequence.alphabet) ->
  forall rc_seq,
    DNASequence.rc_loop bases rc_seq =
      Return (rc_seq ++ string_of_list_ascii (map pairing bases)).
Proof.
  induction bases as [|b bases IH]; intros Hall rc_seq;
    cbn [DNASequence.rc_loop map string_of_list_ascii].
  - now rewrite append_empty_r.
  - rewrite lookup_complement.
    assert (Hb : mem b DNASequence.alphabet = true)
      by (apply mem_In, Hall; now left).
    rewrite Hb; cbn [bind].
    rewrite IH by (intros c Hc; apply Hall; now right).
    now rewrite append_assoc.
Qed.

(** On bases one of which has no complement, the loop raises [KeyError]
    for the first such base it visits. *)
Lemma rc_loop_invalid (bases : list ascii) :
  (exists c, In c bases /\ ~ In c DNASequence.alphabet) ->
  exists c, In c bases /\ ~ In c DNASequence.alphabet
            /\ forall rc_seq, DNASequence.rc_loop bases rc_seq = Raise (KeyError c).
Proof.
  induction bases as [|b bases IH]; intros (c & Hc & Hout).
  - destruct Hc.
  - destruct (mem b DNASequence.alphabet) eqn:Hb.
    + destruct IH as (c' & Hc' & Hout' & Hraise).
      { destruct Hc as [->|Hc]; [|now exists c].
        elim Hout. now apply mem_In. }
      exists c'. repeat split; [now right|assumption|].
      intros rc_seq. cbn [DNASequence.rc_loop].
      rewrite lookup_complement, Hb. cbn [bind]. apply Hraise.
    + exists b. repeat split; [now left| |].
      * intros Hin. apply mem_In in Hin. congruence.
      * intros rc_seq. cbn [DNASequence.rc_loop].
        now rewrite lookup_complement, Hb.
Qed.

Lemma reverse_complement_valid (o : object) (s : string) (q : number) :
  ob_sequence o = Some s -> ob_quality o = Some q ->
  over DNASequence.alphabet s ->
  DNASequence.reverse_complement o =
    Return (Object CSequence
              (Some (string_of_list_ascii (map pairing (rev (chars s)))))
              (Some q)).
Proof.
  intros Hs Hq Hover.
  unfold DNASequence.reverse_complement, get_sequence, get_quality.
  rewrite Hs, Hq; simpl.
  rewrite rc_loop_valid; [reflexivity|].
  intros c Hc. apply Hover. now apply in_rev.
Qed.

(** C5. For a DNA sequence [s] over {A,C,G,T}, [reverse_complement]
    returns a [Sequence] whose residues are the reverse of those of [s],
    each mapped by the pairing A<->T, C<->G, and whose quality is that of
    [s]; on [DNASequence("AGT", 27)] the residues are ["ACT"]. *)
Theorem reverse_complement_reverses_and_pairs
  (o : object) (s : string) (q : number) :
  ob_sequence o = Some s -> ob_quality o = Some q ->
  over DNASequence.alphabet s ->
  (exists r,
     DNASequence.reverse_complement o =
       Return (Object CSequence (Some r) (Some q))
     /\ chars r = map pairing (rev (chars s)))
  /\ DNASequence.reverse_complement (fst (DNASequence.call "AGT" (PyInt 27))) =
       Return (Object CSequence (Some "ACT") (Some (PyInt 27))).
Proof.
  intros Hs Hq Hover. split; [|reflexivity].
  eexists. split; [exact (reverse_complement_valid o s q Hs Hq Hover)|].
  apply chars_of_list.
Qed.

Lemma reverse_complement_reverses_and_pairs_witness :
  (exists r,
     DNASequence.reverse_complement
       (Object CDNASequence (Some "GATTACA") (Some (PyInt 14))) =
       Return (Object CSequence (Some r) (Some (PyInt 14)))
     /\ chars r = map pairing (rev (chars "GATTACA")))
  /\ DNASequence.reverse_complement (fst (DNASequence.call "AGT" (PyInt 27))) =
       Return (Object CSequence (Some "ACT") (Some (PyInt 27))).
Proof.
  apply (reverse_complement_reverses_and_pairs
           (Object CDNASequence (Some "GATTACA") (Some (PyInt 14)))
           "GATTACA" (PyInt 14)).
  - reflexivity.
  - reflexivity.
  - by_cases_on_chars.
Defined.

(** C6. For a DNA sequence [s] over {A,C,G,T}, applying
    [DNASequence.reverse_complement] to [s] and then to its result
    returns a sequence with the residues of [s]. *)
Theorem reverse_complement_twice (o : object) (s : string) (q : number) :
  ob_sequence o = Some s -> ob_quality o = Some q ->
  over DNASequence.alphabet s ->
  exists r1 r2,
    DNASequence.reverse_complement o = Return r1
    /\ DNASequence.reverse_complement r1 = Return r2
    /\ ob_sequence r2 = ob_sequence o.
Proof.
  intros Hs Hq Hover.
  eexists; eexists.
  split; [exact (reverse_complement_valid o s q Hs Hq Hover)|].
  split.
  - apply reverse_complement_valid; [reflexivity|reflexivity|].
    intros c. rewrite chars_of_list, in_map_iff.
    intros (b & <- & Hb). apply pairing_closed, Hover. now apply in_rev.
  - simpl. rewrite Hs. f_equal.
    rewrite chars_of_list, <- map_rev, rev_involutive, map_map.
    rewrite <- (of_list_chars s) at 2. f_equal.
    rewrite <- (map_id (chars s)) at 2.
    apply map_ext_in. intros c Hc. now apply pairing_involutive, Hover.
Qed.

Lemma reverse_complement_twice_witness :
  exists r1 r2,
    DNASequence.reverse_complement
      (Object CDNASequence (Some "GATTACA") (Some (PyInt 14))) = Return r1
    /\ DNASequence.reverse_complement r1 = Return r2
    /\ ob_sequence r2 = Some "GATTACA".
Proof.
  apply (reverse_complement_twice
           (Object CDNASequence (Some "GATTACA") (Some (PyInt 14)))
           "GATTACA" (PyInt 14)).
  - reflexivity.
  - reflexivity.
  - by_cases_on_chars.
Defined.

(** C9. If the residues of the object given to [reverse_complement]
    include a character outside {A,C,G,T}, the call fails: the lookup of
    that character's complement raises [KeyError], whatever else the
    object holds, and no sequence is returned. *)
Theorem reverse_complement_rejects_unpaired (o : object) (s : string) :
  ob_sequence o = Some s ->
  has_outsider DNASequence.alphabet s ->
  exists c,
    In c (chars s) /\ ~ In c DNASequence.alphabet
    /\ DNASequence.reverse_complement o = Raise (KeyError c).
Proof.
  intros Hs (c & Hc & Hout).
  destruct (rc_loop_invalid (rev (chars s))) as (c' & Hc' & Hout' & Hraise).
  { exists c. split; [now apply in_rev in Hc|assumption]. }
  exists c'. repeat split; [now apply in_rev|assumption|].
  unfold DNASequence.reverse_complement, get_sequence. rewrite Hs; simpl.
  now rewrite Hraise.
Qed.

Lemma reverse_complement_rejects_unpaired_witness :
  exists c,
    In c (chars "AXG") /\ ~ In c DNASequence.alphabet
    /\ DNASequence.reverse_complement
         (set_sequence (fst (DNASequence.call "AXG" (PyInt 27))) "AXG") =
       Raise (KeyError c).
Proof.
  apply (reverse_complement_rejects_unpaired
           (set_sequence (fst (DNASequence.call "AXG" (PyInt 27))) "AXG") "AXG").
  - reflexivity.
  - exists "X"%char. split; [simpl; tauto|by_cases_on_chars].
Defined.

(** The result of [reverse_complement] is a plain [Sequence]: looked up as
    a method on it, [reverse_complement] is missing, so the second
    application above goes through the function [DNASequence.reverse_complement]. *)
Lemma reverse_complement_result_is_plain (o r : object) :
  DNASequence.reverse_complement o = Return r ->
  ob_class r = CSequence
  /\ method_reverse_complement r = Raise (AttributeError "reverse_complement").
Proof.
  unfold DNASequence.reverse_complement, method_reverse_complement.
  destruct (get_sequence o) as [s|e]; [|discriminate]. cbn [bind].
  destruct (DNASequence.rc_loop _ _) as [rc|e]; [|discriminate]. cbn [bind].
  destruct (get_quality o) as [q|e]; [|discriminate]. cbn [bind].
  intros [= <-]. split; reflexivity.
Qed.

(* ================================================================= *)
(** ** transcribe *)

Lemma transcribe_base_rna (c : ascii) :
  In c DNASequence.alphabet ->
  In (DNASequence.transcribe_base c) RNASequence.alphabet.
Proof.
  simpl; intros [<-|[<-|[<-|[<-|[]]]]]; simpl; tauto.
Qed.

Lemma transcribe_base_U (c : ascii) :
  In c DNASequence.alphabet ->
  (DNASequence.transcribe_base c = "U"%char <-> c = "T"%char).
Proof.
  simpl; intros [<-|[<-|[<-|[<-|[]]]]]; split; intros H;
    try reflexivity; discriminate H.
Qed.

Lemma transcribe_base_other (c : ascii) :
  c <> "T"%char -> DNASequence.transcribe_base c = c.
Proof.
  intros H. unfold DNASequence.transcribe_base.
  destruct (Ascii.eqb_spec c "T"); [contradiction|reflexivity].
Qed.

Lemma transcribe_valid (o : object) (s : string) (q : number) :
  ob_sequence o = Some s -> ob_quality o = Some q ->
  over DNASequence.alphabet s ->
  DNASequence.transcribe o =
    Return (Object CRNASequence
              (Some (string_of_list_ascii
                       (map DNASequence.transcribe_base (chars s))))
              (Some q)).
Proof.
  intros Hs Hq Hover.
  unfold DNASequence.transcribe, get_sequence, get_quality.
  rewrite Hs, Hq; cbn [bind].
  apply RNASequence_call_valid.
  intros c. rewrite chars_of_list, in_map_iff.
  intros (b & <- & Hb). now apply transcribe_base_rna, Hover.
Qed.

(** C4. For a DNA sequence [s] over {A,C,G,T}, [transcribe] returns an
    [RNASequence] with the quality of [s] whose residues have the length
    of those of [s]; position [i] holds [U] exactly when [s] holds [T]
    there and the residue of [s] otherwise; the residues pass the RNA
    alphabet check made at construction; and
    [DNASequence("AGT", 27).transcribe()] has residues ["AGU"] and
    quality 27. *)
Theorem transcribe_replaces_T_by_U (o : object) (s : string) (q : number) :
  ob_sequence o = Some s -> ob_quality o = Some q ->
  over DNASequence.alphabet s ->
  (exists r,
     DNASequence.transcribe o = Return (Object CRNASequence (Some r) (Some q))
     /\ String.length r = String.length s
     /\ (forall i c, String.get i s = Some c ->
           (String.get i r = Some "U"%char <-> c = "T"%char)
           /\ (c <> "T"%char -> String.get i r = Some c))
     /\ issubset (py_set r) RNASequence.alphabet = true)
  /\ DNASequence.transcribe (fst (DNASequence.call "AGT" (PyInt 27))) =
       Return (Object CRNASequence (Some "AGU") (Some (PyInt 27))).
Proof.
  intros Hs Hq Hover. split; [|reflexivity].
  eexists. split; [exact (transcribe_valid o s q Hs Hq Hover)|].
  split; [|split].
  - now rewrite <- !length_chars, chars_of_list, length_map.
  - intros i c Hget.
    rewrite get_chars in Hget. rewrite get_chars, chars_of_list, nth_error_map, Hget.
    cbn [option_map].
    assert (Hc : In c DNASequence.alphabet)
      by (apply Hover; eapply nth_error_In; eassumption).
    split.
    + rewrite <- (transcribe_base_U c Hc). split; [now intros [= ->]|now intros ->].
    + intros Hne. now rewrite transcribe_base_other.
  - apply issubset_set_true. intros c. rewrite chars_of_list, in_map_iff.
    intros (b & <- & Hb). now apply transcribe_base_rna, Hover.
Qed.

Lemma transcribe_replaces_T_by_U_witness :
  (exists r,
     DNASequence.transcribe
       (Object CDNASequence (Some "GATTACA") (Some (PyInt 14))) =
       Return (Object CRNASequence (Some r) (Some (PyInt 14)))
     /\ String.length r = String.length "GATTACA"
     /\ (forall i c, String.get i "GATTACA" = Some c ->
           (String.get i r = Some "U"%char <-> c = "T"%char)
           /\ (c <> "T"%char -> String.get i r = Some c))
     /\ issubset (py_set r) RNASequence.alphabet = true)
  /\ DNASequence.transcribe (fst (DNASequence.call "AGT" (PyInt 27))) =
       Return (Object CRNASequence (Some "AGU") (Some (PyInt 27))).
Proof.
  apply (transcribe_replaces_T_by_U
           (Object CDNASequence (Some "GATTACA") (Some (PyInt 14)))
           "GATTACA" (PyInt 14)).
  - reflexivity.
  - reflexivity.
  - by_cases_on_chars.
Defined.

(* ================================================================= *)
(** ** Rounding to binary64

    [SpecFloat] defines the rounding functions; the facts about them that
    the quality arithmetic needs are proved here: where the result of a
    rounding is finite or non-zero, and between which integers a rounded
    quotient lies. *)

Lemma fexp_eq (e : Z) : fexp prec emax e = Z.max (e - 53) (-1074).
Proof. reflexivity. Qed.

Lemma digits2_size (p : positive) : digits2_pos p = Pos.size p.
Proof. induction p as [p IH|p IH|]; simpl; now rewrite ?IH. Qed.

Lemma Zdigits2_nonneg (m : Z) : 0 <= Zdigits2 m.
Proof. destruct m; simpl; lia. Qed.

Lemma Zdigits2_gt (m : Z) : 0 <= m -> m < 2 ^ Zdigits2 m.
Proof.
  destruct m as [|p|p]; intros H; simpl Zdigits2; [reflexivity| |lia].
  rewrite digits2_size. pose proof (Pos.size_gt p) as Hs.
  rewrite <- Pos2Z.inj_pow. lia.
Qed.

Lemma Zdigits2_le (m : Z) : 0 < m -> 2 ^ (Zdigits2 m - 1) <= m.
Proof.
  destruct m as [|p|p]; intros H; simpl Zdigits2; try lia.
  rewrite digits2_size. pose proof (Pos.size_le p) as Hs.
  assert (E : 2 ^ Z.pos (Pos.size p) = 2 * 2 ^ (Z.pos (Pos.size p) - 1)).
  { rewrite <- Z.pow_succ_r by lia. f_equal. lia. }
  assert (Hs' : 2 ^ Z.pos (Pos.size p) <= Z.pos p~0).
  { rewrite <- Pos2Z.inj_pow. lia. }
  lia.
Qed.

Lemma Zdigits2_upper (m n : Z) : 0 <= m -> 0 <= n -> m < 2 ^ n -> Zdigits2 m <= n.
Proof.
  intros Hm Hn Hlt.
  destruct (Z.eq_dec m 0) as [->|Hne]; [simpl; lia|].
  pose proof (Zdigits2_le m ltac:(lia)) as Hle.
  destruct (Z_le_gt_dec (Zdigits2 m) n) as [|Hgt]; [assumption|exfalso].
  assert (2 ^ n <= 2 ^ (Zdigits2 m - 1)) by (apply Z.pow_le_mono_r; lia).
  lia.
Qed.

Lemma Zdigits2_lower (m n : Z) : 0 <= n -> 2 ^ n <= m -> n + 1 <= Zdigits2 m.
Proof.
  intros Hn Hle.
  assert (Hm : 0 <= m) by (pose proof (Z.pow_pos_nonneg 2 n); lia).
  pose proof (Zdigits2_gt m Hm) as Hgt.
  destruct (Z_le_gt_dec (n + 1) (Zdigits2 m)) as [|Hlt]; [assumption|exfalso].
  assert (2 ^ Zdigits2 m <= 2 ^ n)
    by (apply Z.pow_le_mono_r; pose proof (Zdigits2_nonneg m); lia).
  lia.
Qed.

Lemma shr_1_m (r : shr_record) : 0 <= shr_m r -> shr_m (shr_1 r) = shr_m r / 2.
Proof.
  destruct r as [m r s]; cbn [shr_m]. intros Hm.
  destruct m as [|[p|p|]|p]; cbn [shr_1 shr_m]; try lia.
  - reflexivity.
  - apply Z.div_unique with (r := 1); lia.
  - apply Z.div_unique with (r := 0); lia.
  - reflexivity.
Qed.

Lemma pow2_xI (p : positive) : 2 ^ Z.pos p~1 = 2 * (2 ^ Z.pos p * 2 ^ Z.pos p).
Proof.
  assert (E : Z.pos p~1 = 1 + (Z.pos p + Z.pos p)) by lia.
  rewrite E, !Z.pow_add_r by lia. reflexivity.
Qed.

Lemma pow2_xO (p : positive) : 2 ^ Z.pos p~0 = 2 ^ Z.pos p * 2 ^ Z.pos p.
Proof.
  assert (E : Z.pos p~0 = Z.pos p + Z.pos p) by lia.
  rewrite E, !Z.pow_add_r by lia. reflexivity.
Qed.

Lemma iter_shr_m (p : positive) :
  forall r, 0 <= shr_m r -> shr_m (iter_pos shr_1 p r) = shr_m r / 2 ^ Z.pos p.
Proof.
  assert (Hpow : forall q, 0 < 2 ^ Z.pos q) by (intros q; apply Z.pow_pos_nonneg; lia).
  induction p as [p IH|p IH|]; intros r Hr; simpl iter_pos.
  - assert (H1 : 0 <= shr_m (shr_1 r))
      by (rewrite shr_1_m by assumption; apply Z.div_pos; lia).
    assert (H2 : 0 <= shr_m (iter_pos shr_1 p (shr_1 r)))
      by (rewrite IH by assumption; apply Z.div_pos; auto).
    rewrite IH, IH, shr_1_m by assumption.
    pose proof (Hpow p).
    rewrite !Z.div_div by lia. now rewrite pow2_xI.
  - assert (H2 : 0 <= shr_m (iter_pos shr_1 p r))
      by (rewrite IH by assumption; apply Z.div_pos; auto).
    rewrite IH, IH by assumption.
    pose proof (Hpow p).
    rewrite !Z.div_div by lia. now rewrite pow2_xO.
  - rewrite shr_1_m by assumption. reflexivity.
Qed.

Lemma shr_record_of_loc_m (m : Z) (l : location) : shr_m (shr_record_of_loc m l) = m.
Proof. destruct l as [|[]]; reflexivity. Qed.

(** The mantissa and exponent after [shr_fexp]: the mantissa is divided
    by the power of two that brings the exponent up to [fexp]. *)
Lemma shr_fexp_spec (m e : Z) (l : location) :
  0 <= m ->
  let k := Z.max 0 (fexp prec emax (Zdigits2 m + e) - e) in
  shr_m (fst (shr_fexp prec emax m e l)) = m / 2 ^ k
  /\ snd (shr_fexp prec emax m e l) = e + k.
Proof.
  intros Hm k. unfold shr_fexp, shr. subst k.
  destruct (fexp prec emax (Zdigits2 m + e) - e) as [|p|p] eqn:E; simpl fst; simpl snd.
  - rewrite shr_record_of_loc_m. change (Z.max 0 0) with 0. rewrite Z.div_1_r. lia.
  - rewrite iter_shr_m by (now rewrite shr_record_of_loc_m).
    rewrite shr_record_of_loc_m. rewrite Z.max_r by lia. split; reflexivity.
  - rewrite shr_record_of_loc_m. rewrite Z.max_l by lia. rewrite Z.div_1_r. lia.
Qed.

Lemma round_nearest_even_bounds (m : Z) (l : location) :
  m <= round_nearest_even m l <= m + 1.
Proof. destruct l as [|[]]; simpl; try lia. destruct (Z.even m); lia. Qed.

Lemma shr_1_exact (c : Z) :
  0 <= c -> shr_1 (Build_shr_record (2 * c) false false) = Build_shr_record c false false.
Proof. destruct c as [|p|p]; intros H; try reflexivity; lia. Qed.

Lemma iter_shr_exact (p : positive) :
  forall c, 0 <= c ->
    iter_pos shr_1 p (Build_shr_record (c * 2 ^ Z.pos p) false false) =
      Build_shr_record c false false.
Proof.
  assert (Hpow : forall q, 0 < 2 ^ Z.pos q) by (intros q; apply Z.pow_pos_nonneg; lia).
  induction p as [p IH|p IH|]; intros c Hc; cbn [iter_pos].
  - rewrite pow2_xI.
    replace (c * (2 * (2 ^ Z.pos p * 2 ^ Z.pos p)))
      with (2 * (c * 2 ^ Z.pos p * 2 ^ Z.pos p)) by ring.
    pose proof (Hpow p).
    rewrite shr_1_exact by nia. rewrite IH by nia. now apply IH.
  - rewrite pow2_xO, Z.mul_assoc. pose proof (Hpow p).
    rewrite IH by nia. now apply IH.
  - rewrite Z.pow_1_r, Z.mul_comm. now apply shr_1_exact.
Qed.

(** What [binary_round_aux] computes on a non-negative mantissa [m] whose
    exponent [e] is not above the target exponent [e1]: [m] is cut down
    to [m / 2^(e1 - e)], rounded to that or the next integer [m1] (to
    that one when nothing is cut off), and [m1] is renormalised. *)
Lemma binary_round_aux_spec (sx : bool) (m e : Z) (l : location) :
  0 <= m -> e <= fexp prec emax (Zdigits2 m + e) ->
  let e1 := fexp prec emax (Zdigits2 m + e) in
  exists m1 : Z,
    m / 2 ^ (e1 - e) <= m1 <= m / 2 ^ (e1 - e) + 1
    /\ (l = loc_Exact -> m mod 2 ^ (e1 - e) = 0 -> m1 = m / 2 ^ (e1 - e))
    /\ let k2 := Z.max 0 (fexp prec emax (Zdigits2 m1 + e1) - e1) in
       binary_round_aux prec emax sx m e l =
         match m1 / 2 ^ k2 with
         | 0 => S754_zero sx
         | Z.pos p =>
             if e1 + k2 <=? emax - prec then S754_finite sx p (e1 + k2)
             else S754_infinity sx
         | Z.neg _ => S754_nan
         end.
Proof.
  intros Hm He e1.
  assert (Hk : Z.max 0 (e1 - e) = e1 - e) by (subst e1; lia).
  pose proof (shr_fexp_spec m e l Hm) as [Hm' He'].
  fold e1 in Hm', He'. rewrite Hk in Hm', He'.
  unfold binary_round_aux.
  destruct (shr_fexp prec emax m e l) as [mrs' e'] eqn:E1.
  cbn [fst snd] in Hm', He'.
  set (m1 := round_nearest_even (shr_m mrs') (loc_of_shr_record mrs')).
  assert (Hpos : 0 <= m / 2 ^ (e1 - e))
    by (apply Z.div_pos; [assumption|apply Z.pow_pos_nonneg; lia]).
  assert (Hb : shr_m mrs' <= m1 <= shr_m mrs' + 1)
    by apply round_nearest_even_bounds.
  exists m1. rewrite <- Hm'. split; [assumption|]. split.
  - intros -> Hmod. subst m1.
    assert (Hrec : mrs' = Build_shr_record (m / 2 ^ (e1 - e)) false false).
    { unfold shr_fexp, shr in E1. fold e1 in E1.
      destruct (e1 - e) as [|p|p] eqn:Ek; try lia.
      - injection E1 as <- _. cbn [shr_record_of_loc]. now rewrite Z.div_1_r.
      - injection E1 as <- _. cbn [shr_record_of_loc].
        assert (Hdiv : m = m / 2 ^ Z.pos p * 2 ^ Z.pos p).
        { pose proof (Z.div_mod m (2 ^ Z.pos p)) as D.
          assert (2 ^ Z.pos p <> 0) by (pose proof (Z.pow_pos_nonneg 2 (Z.pos p)); lia).
          specialize (D H). lia. }
        rewrite Hdiv at 1. now apply iter_shr_exact. }
    rewrite Hrec. reflexivity.
  - assert (Hm1 : 0 <= m1) by lia.
    pose proof (shr_fexp_spec m1 e' loc_Exact Hm1) as [Hm'' He''].
    destruct (shr_fexp prec emax m1 e' loc_Exact) as [mrs'' e''] eqn:E2.
    cbn [fst snd] in Hm'', He''.
    assert (Ee : e' = e1) by lia. rewrite Ee in Hm'', He''.
    rewrite Hm'', He''. reflexivity.
Qed.

Lemma div_pow2_lt (m d k n : Z) :
  0 <= m -> m < 2 ^ d -> 0 <= k -> 0 <= n -> d <= n + k -> m / 2 ^ k < 2 ^ n.
Proof.
  intros Hm Hd Hk Hn Hle.
  apply Z.div_lt_upper_bound; [apply Z.pow_pos_nonneg; lia|].
  rewrite <- Z.pow_add_r by lia.
  assert (2 ^ d <= 2 ^ (k + n)) by (apply Z.pow_le_mono_r; lia).
  lia.
Qed.

(** Renormalising a rounded mantissa of at most 53 bits, or [2^53]. *)
Lemma renormalise (m1 e1 : Z) :
  0 <= m1 <= 2 ^ 53 -> -1074 <= e1 ->
  let k2 := Z.max 0 (fexp prec emax (Zdigits2 m1 + e1) - e1) in
  (k2 = 0 /\ m1 / 2 ^ k2 = m1) \/ (k2 = 1 /\ m1 = 2 ^ 53 /\ m1 / 2 ^ k2 = 2 ^ 52).
Proof.
  intros [H0 H1] He k2. subst k2. rewrite fexp_eq.
  destruct (Z.eq_dec m1 (2 ^ 53)) as [->|Hne].
  - right. change (Zdigits2 (2 ^ 53)) with 54.
    replace (Z.max 0 (Z.max (54 + e1 - 53) (-1074) - e1)) with 1 by lia.
    repeat split; reflexivity.
  - left. assert (Hd : Zdigits2 m1 <= 53) by (apply Zdigits2_upper; lia).
    replace (Z.max 0 (Z.max (Zdigits2 m1 + e1 - 53) (-1074) - e1)) with 0 by lia.
    split; [reflexivity|apply Z.div_1_r].
Qed.

(** The value [binary_round_aux] returns, as a mantissa [m1] at the
    target exponent [e1]. *)
Lemma binary_round_aux_value (sx : bool) (m e : Z) (l : location) :
  0 <= m -> e <= fexp prec emax (Zdigits2 m + e) ->
  let e1 := fexp prec emax (Zdigits2 m + e) in
  let m' := m / 2 ^ (e1 - e) in
  exists m1 : Z,
    m' <= m1 <= m' + 1
    /\ m1 <= 2 ^ 53
    /\ (l = loc_Exact -> m mod 2 ^ (e1 - e) = 0 -> m1 = m')
    /\ ((m1 = 0 /\ binary_round_aux prec emax sx m e l = S754_zero sx)
        \/ exists p e2,
             e1 <= e2 <= e1 + 1
             /\ m1 = Z.pos p * 2 ^ (e2 - e1)
             /\ binary_round_aux prec emax sx m e l =
                  if e2 <=? 971 then S754_finite sx p e2 else S754_infinity sx).
Proof.
  intros Hm He e1 m'.
  destruct (binary_round_aux_spec sx m e l Hm He) as (m1 & Hb & Hex & Hres).
  fold e1 in Hb, Hex, Hres. fold m' in Hb, Hex.
  assert (He1 : -1074 <= e1) by (subst e1; rewrite fexp_eq; lia).
  assert (Hm'0 : 0 <= m')
    by (apply Z.div_pos; [assumption|apply Z.pow_pos_nonneg; lia]).
  assert (Hm'1 : m' < 2 ^ 53).
  { apply div_pow2_lt with (d := Zdigits2 m); try lia.
    - now apply Zdigits2_gt.
    - subst e1. rewrite fexp_eq in *. lia. }
  exists m1. split; [assumption|]. split; [lia|]. split; [assumption|].
  cbv zeta in Hres.
  destruct (renormalise m1 e1 ltac:(lia) He1) as [(Hk & Hq)|(Hk & Hm1 & Hq)];
    cbv zeta in Hk, Hq; rewrite Hq, Hk in Hres.
  - destruct m1 as [|p|p]; [left; now split| |lia].
    right. exists p, e1. rewrite Z.add_0_r in Hres.
    split; [lia|]. split; [|exact Hres].
    now rewrite Z.sub_diag, Z.mul_1_r.
  - right. exists (2 ^ 52)%positive, (e1 + 1).
    split; [lia|]. split; [|exact Hres].
    replace (e1 + 1 - e1) with 1 by lia. rewrite Hm1. reflexivity.
Qed.

Lemma binary_round_aux_finite (sx : bool) (m e : Z) (l : location) :
  0 <= m -> e <= fexp prec emax (Zdigits2 m + e) ->
  Zdigits2 m + e <= 1023 ->
  is_finite (binary_round_aux prec emax sx m e l) = true.
Proof.
  intros Hm He Hd.
  destruct (binary_round_aux_value sx m e l Hm He)
    as (m1 & _ & _ & _ & [(_ & ->)|(p & e2 & He2 & _ & ->)]); [reflexivity|].
  rewrite fexp_eq in He2.
  destruct (Z.leb_spec e2 971); [reflexivity|lia].
Qed.

Lemma binary_round_aux_nonzero (sx : bool) (m e : Z) (l : location) :
  0 < m -> e <= fexp prec emax (Zdigits2 m + e) ->
  -1074 < Zdigits2 m + e ->
  is_zero (binary_round_aux prec emax sx m e l) = false.
Proof.
  intros Hm He Hd.
  destruct (binary_round_aux_value sx m e l ltac:(lia) He)
    as (m1 & Hb & _ & _ & [(H0 & _)|(p & e2 & _ & _ & ->)]).
  - exfalso. subst m1.
    set (e1 := fexp prec emax (Zdigits2 m + e)) in *.
    assert (1 <= m / 2 ^ (e1 - e)); [|lia].
    apply Z.div_le_lower_bound; [apply Z.pow_pos_nonneg; lia|].
    rewrite Z.mul_1_r.
    pose proof (Zdigits2_le m Hm).
    assert (2 ^ (e1 - e) <= 2 ^ (Zdigits2 m - 1)); [|lia].
    apply Z.pow_le_mono_r; [lia|]. subst e1. rewrite fexp_eq in *. lia.
  - now destruct (e2 <=? 971).
Qed.

Lemma Zdigits2_pow2 (m k : Z) :
  0 < m -> 0 <= k -> Zdigits2 (m * 2 ^ k) = Zdigits2 m + k.
Proof.
  intros Hm Hk.
  pose proof (Zdigits2_gt m ltac:(lia)) as Hgt.
  pose proof (Zdigits2_le m Hm) as Hle.
  pose proof (Zdigits2_nonneg m) as Hn.
  assert (Hd : 1 <= Zdigits2 m) by (destruct m; simpl in *; lia).
  pose proof (Z.pow_pos_nonneg 2 k ltac:(lia) Hk) as Hp.
  apply Z.le_antisymm.
  - apply Zdigits2_upper; [nia|lia|].
    rewrite Z.pow_add_r by lia. nia.
  - replace (Zdigits2 m + k) with ((Zdigits2 m - 1 + k) + 1) by lia.
    apply Zdigits2_lower; [lia|].
    rewrite Z.pow_add_r by lia. nia.
Qed.

Lemma iter_xO (d p : positive) : Z.pos (Pos.iter xO p d) = Z.pos p * 2 ^ Z.pos d.
Proof.
  induction d as [|d IH] using Pos.peano_ind.
  - simpl. lia.
  - rewrite Pos.iter_succ, Pos2Z.inj_xO, IH, Pos2Z.inj_succ, Z.pow_succ_r by lia.
    ring.
Qed.

Lemma shl_align_spec (mx : positive) (ex ex' : Z) :
  let '(mz, ez) := shl_align mx ex ex' in
  ez = Z.min ex ex' /\ Z.pos mz = Z.pos mx * 2 ^ (ex - ez).
Proof.
  unfold shl_align. destruct (ex' - ex) as [|d|d] eqn:E.
  - split; [lia|]. now rewrite Z.sub_diag, Z.mul_1_r.
  - split; [lia|]. now rewrite Z.sub_diag, Z.mul_1_r.
  - split; [lia|]. rewrite iter_xO. f_equal. f_equal. lia.
Qed.

(** [binary_round] first aligns the mantissa, so that it meets the
    precondition of [binary_round_aux]. *)
Lemma binary_round_aligned (sx : bool) (mx : positive) (ex : Z) :
  exists m e,
    binary_round prec emax sx mx ex = binary_round_aux prec emax sx m e loc_Exact
    /\ 0 < m
    /\ e <= fexp prec emax (Zdigits2 m + e)
    /\ Zdigits2 m + e = Zdigits2 (Z.pos mx) + ex.
Proof.
  unfold binary_round.
  pose proof (shl_align_spec mx ex (fexp prec emax (Z.pos (digits2_pos mx) + ex))) as H.
  destruct (shl_align mx ex _) as [mz ez]. destruct H as [He Hm].
  exists (Z.pos mz), ez. split; [reflexivity|]. split; [lia|].
  assert (Hd : Zdigits2 (Z.pos mz) + ez = Zdigits2 (Z.pos mx) + ex).
  { rewrite Hm, Zdigits2_pow2 by lia. lia. }
  split; [|exact Hd]. rewrite Hd. change (Zdigits2 (Z.pos mx)) with (Z.pos (digits2_pos mx)).
  lia.
Qed.

Lemma int_to_float_returns (z : Z) :
  Z.abs z < 2 ^ 1023 ->
  exists f, int_to_float z = Return f /\ (z <> 0 -> is_zero f = false).
Proof.
  intros Hz. unfold int_to_float, binary_normalize.
  destruct z as [|p|p].
  - eexists. split; [reflexivity|]. intros H; now elim H.
  - destruct (binary_round_aligned false p 0) as (m & e & -> & Hm & He & Hd).
    assert (Hdp : Zdigits2 (Z.pos p) <= 1023) by (apply Zdigits2_upper; lia).
    pose proof (Zdigits2_nonneg (Z.pos p)).
    rewrite binary_round_aux_finite by lia.
    eexists. split; [reflexivity|]. intros _. apply binary_round_aux_nonzero; lia.
  - destruct (binary_round_aligned true p 0) as (m & e & -> & Hm & He & Hd).
    assert (Hdp : Zdigits2 (Z.pos p) <= 1023) by (apply Zdigits2_upper; lia).
    pose proof (Zdigits2_nonneg (Z.pos p)).
    rewrite binary_round_aux_finite by lia.
    eexists. split; [reflexivity|]. intros _. apply binary_round_aux_nonzero; lia.
Qed.

Lemma new_location_exact (b r : Z) : new_location b r = loc_Exact <-> r = 0.
Proof.
  unfold new_location, new_location_even, new_location_odd.
  destruct (Z.even b), (Z.eqb_spec r 0); split; intros H;
    try reflexivity; try assumption; try discriminate H; contradiction.
Qed.

(** Dividing two integers as mantissas of exponent 0: the dividend is
    scaled by [2^(-e')] and divided with remainder. *)
Lemma div_core_spec (a b : Z) :
  0 <= a -> 0 < b ->
  let e' := Z.min (fexp prec emax (Zdigits2 a - Zdigits2 b)) 0 in
  SFdiv_core_binary prec emax a 0 b 0 =
    (a * 2 ^ (- e') / b, e', new_location b ((a * 2 ^ (- e')) mod b)).
Proof.
  intros Ha Hb e'. unfold SFdiv_core_binary.
  rewrite !Z.add_0_r. change (0 - 0) with 0. fold e'.
  assert (He' : e' <= 0) by (subst e'; lia).
  assert (Hm : match 0 - e' with
               | 0 => a
               | Z.pos _ => Z.shiftl a (0 - e')
               | Z.neg _ => 0
               end = a * 2 ^ (- e')).
  { destruct (0 - e') as [|p|p] eqn:E; try lia.
    - replace (- e') with 0 by lia. now rewrite Z.mul_1_r.
    - rewrite Z.shiftl_mul_pow2 by lia. f_equal. f_equal. lia. }
  rewrite Hm. unfold Z.div, Z.modulo.
  now destruct (Z.div_eucl (a * 2 ^ (- e')) b).
Qed.

(** The scaled quotient meets the precondition of [binary_round_aux],
    and its magnitude is that of [a / b]. *)
Lemma div_core_quotient (a b : Z) :
  0 < a -> 0 < b ->
  let e' := Z.min (fexp prec emax (Zdigits2 a - Zdigits2 b)) 0 in
  let q := a * 2 ^ (- e') / b in
  0 <= q
  /\ e' <= fexp prec emax (Zdigits2 q + e')
  /\ Zdigits2 q + e' <= Z.max (Zdigits2 a - Zdigits2 b + 1) 0.
Proof.
  intros Ha Hb e' q.
  pose proof (Zdigits2_gt a ltac:(lia)) as Ha1.
  pose proof (Zdigits2_le a Ha) as Ha2.
  pose proof (Zdigits2_gt b ltac:(lia)) as Hb1.
  pose proof (Zdigits2_le b Hb) as Hb2.
  assert (Hda : 1 <= Zdigits2 a) by (destruct a; simpl in *; lia).
  assert (Hdb : 1 <= Zdigits2 b) by (destruct b; simpl in *; lia).
  set (da := Zdigits2 a) in *. set (db := Zdigits2 b) in *.
  assert (He' : e' <= 0) by (subst e'; lia).
  assert (He'' : -1074 <= e') by (subst e'; rewrite fexp_eq; lia).
  set (s := - e') in *.
  pose proof (Z.pow_pos_nonneg 2 s ltac:(lia) ltac:(lia)) as Hs.
  assert (Hq : 0 <= q) by (apply Z.div_pos; nia).
  split; [assumption|].
  pose proof (Zdigits2_nonneg q) as Hdq.
  split.
  - rewrite fexp_eq.
    destruct (Z.eq_dec e' (-1074)) as [E|E]; [lia|].
    assert (Hexp : 0 <= da - 1 + s - db) by (subst s e'; rewrite fexp_eq in *; lia).
    assert (Hlow : 2 ^ (da - 1 + s - db) <= q).
    { apply Z.div_le_lower_bound; [assumption|].
      assert (b * 2 ^ (da - 1 + s - db) <= 2 ^ db * 2 ^ (da - 1 + s - db))
        by (apply Z.mul_le_mono_nonneg_r; [apply Z.pow_nonneg|]; lia).
      rewrite <- Z.pow_add_r in H by lia.
      replace (db + (da - 1 + s - db)) with ((da - 1) + s) in H by lia.
      rewrite Z.pow_add_r in H by lia.
      assert (2 ^ (da - 1) * 2 ^ s <= a * 2 ^ s)
        by (apply Z.mul_le_mono_nonneg_r; lia).
      lia. }
    pose proof (Zdigits2_lower q _ Hexp Hlow).
    subst s e'. rewrite fexp_eq in *. lia.
  - destruct (Z_le_gt_dec 0 (da + s - db + 1)) as [Hn|Hn].
    + assert (Hup : q < 2 ^ (da + s - db + 1)).
      { apply Z.div_lt_upper_bound; [assumption|].
        assert (2 ^ (db - 1) * 2 ^ (da + s - db + 1) <= b * 2 ^ (da + s - db + 1))
          by (apply Z.mul_le_mono_nonneg_r; [apply Z.pow_nonneg|]; lia).
        rewrite <- Z.pow_add_r in H by lia.
        replace (db - 1 + (da + s - db + 1)) with (da + s) in H by lia.
        rewrite Z.pow_add_r in H by lia.
        assert (a * 2 ^ s < 2 ^ da * 2 ^ s)
          by (apply Z.mul_lt_mono_pos_r; lia).
        lia. }
      pose proof (Zdigits2_upper q _ Hq Hn Hup). lia.
    + assert (Hz : q = 0).
      { apply Z.div_small. split; [nia|].
        assert (2 ^ (db - 1) = 2 ^ (db - 1 - (da + s)) * 2 ^ (da + s)).
        { rewrite <- Z.pow_add_r by lia. f_equal. lia. }
        assert (1 <= 2 ^ (db - 1 - (da + s)))
          by (pose proof (Z.pow_pos_nonneg 2 (db - 1 - (da + s))); lia).
        assert (a * 2 ^ s < 2 ^ da * 2 ^ s)
          by (apply Z.mul_lt_mono_pos_r; lia).
        rewrite <- Z.pow_add_r in H1 by lia. nia. }
      rewrite Hz. simpl Zdigits2. lia.
Qed.

Lemma binary_round_aux_zero (sx : bool) (e : Z) :
  binary_round_aux prec emax sx 0 e loc_Exact = S754_zero sx.
Proof.
  assert (H : forall e0, shr_fexp prec emax 0 e0 loc_Exact =
                (Build_shr_record 0 false false,
                 snd (shr_fexp prec emax 0 e0 loc_Exact))).
  { intros e0. unfold shr_fexp, shr. cbn [shr_record_of_loc].
    destruct (fexp prec emax (Zdigits2 0 + e0) - e0) as [|p|p]; try reflexivity.
    cbn [snd]. f_equal. exact (iter_shr_exact p 0 (Z.le_refl 0)). }
  unfold binary_round_aux. rewrite H. cbn [shr_m loc_of_shr_record round_nearest_even].
  rewrite H. reflexivity.
Qed.

Lemma le_of_compare (x y : Z) : (x ?= y) <> Gt <-> x <= y.
Proof. reflexivity. Qed.

Lemma ge_of_compare (x y : Z) : (x ?= y) <> Lt <-> y <= x.
Proof. rewrite Z.compare_nlt_iff. lia. Qed.

(** The correctly rounded quotient of [a] by [b] stays between any two
    integers that enclose [a / b], as long as [a / b < 2^53]: there the
    doubles are at most 1 apart. *)
Lemma round_quotient_between (sx : bool) (a b L H : Z) :
  0 < a -> 0 < b -> a < 2 ^ 53 * b -> L * b <= a <= H * b ->
  let e' := Z.min (fexp prec emax (Zdigits2 a - Zdigits2 b)) 0 in
  match binary_round_aux prec emax sx (a * 2 ^ (- e') / b) e'
          (new_location b ((a * 2 ^ (- e')) mod b)) with
  | S754_zero s => s = sx /\ L <= 0 <= H
  | S754_finite s p e2 =>
      s = sx
      /\ compare_int_scaled L (Z.pos p) e2 <> Gt
      /\ compare_int_scaled H (Z.pos p) e2 <> Lt
  | _ => False
  end.
Proof.
  intros Ha Hb Hlt [HL HH] e'.
  destruct (div_core_quotient a b Ha Hb) as (Hq & Hpre & _).
  fold e' in Hq, Hpre.
  assert (He' : e' <= 0) by (subst e'; lia).
  set (s := - e') in *.
  pose proof (Z.pow_pos_nonneg 2 s ltac:(lia) ltac:(lia)) as Hs.
  set (A := a * 2 ^ s) in *. set (q := A / b) in *.
  assert (Hdq : Zdigits2 q <= 53 + s).
  { apply Zdigits2_upper; [assumption|lia|].
    apply Z.div_lt_upper_bound; [assumption|].
    rewrite Z.pow_add_r by lia. subst A. nia. }
  set (l := new_location b (A mod b)).
  destruct (binary_round_aux_value sx q e' l Hq Hpre)
    as (m1 & Hb1 & _ & Hex & Hres).
  set (e1 := fexp prec emax (Zdigits2 q + e')) in *.
  assert (He1 : e1 <= 0) by (subst e1; rewrite fexp_eq; lia).
  assert (He1' : -1074 <= e1) by (subst e1; rewrite fexp_eq; lia).
  set (k1 := e1 - e') in *. set (j := - e1).
  assert (Hk1 : 0 <= k1) by (subst k1; lia).
  assert (Hj : 0 <= j) by (subst j; lia).
  pose proof (Z.pow_pos_nonneg 2 k1 ltac:(lia) Hk1) as Hpk.
  pose proof (Z.pow_pos_nonneg 2 j ltac:(lia) Hj) as Hpj.
  assert (Hsplit : 2 ^ s = 2 ^ k1 * 2 ^ j)
    by (rewrite <- Z.pow_add_r by lia; f_equal; subst s k1 j; lia).
  set (B := b * 2 ^ k1).
  assert (HB : 0 < B) by (subst B; nia).
  set (m' := q / 2 ^ k1) in *.
  assert (Hm' : m' = A / B) by (subst m' q B; rewrite Z.div_div by lia; reflexivity).
  assert (HmB : B * m' <= A) by (rewrite Hm'; apply Z.mul_div_le; assumption).
  assert (Hlow : L * 2 ^ j <= m').
  { rewrite Hm'. apply Z.div_le_lower_bound; [assumption|]. subst A B. nia. }
  assert (HAup : A <= H * 2 ^ j * B) by (subst A B; nia).
  assert (Hup : m1 <= H * 2 ^ j).
  { destruct (Z.eq_dec A (B * m')) as [E|E].
    - assert (El : l = loc_Exact).
      { subst l. apply new_location_exact. rewrite E. subst B.
        replace (b * 2 ^ k1 * m') with (2 ^ k1 * m' * b) by ring.
        apply Z.mod_mul. lia. }
      assert (Em : q mod 2 ^ k1 = 0).
      { subst q. rewrite E. subst B.
        replace (b * 2 ^ k1 * m') with (m' * 2 ^ k1 * b) by ring.
        rewrite Z.div_mul by lia. apply Z.mod_mul. lia. }
      rewrite (Hex El Em). nia.
    - assert (m' < H * 2 ^ j) by nia. lia. }
  destruct Hres as [(E0 & ->)|(p & e2 & He2 & Em1 & ->)].
  - split; [reflexivity|]. subst m1. nia.
  - destruct (Z.leb_spec e2 971) as [_|Hbig]; [|lia].
    split; [reflexivity|].
    unfold compare_int_scaled.
    destruct (Z.leb_spec 0 e2) as [Hpos|Hneg];
      rewrite le_of_compare, ge_of_compare.
    + assert (E2 : 2 ^ (e2 - e1) = 2 ^ e2 * 2 ^ j)
        by (rewrite <- Z.pow_add_r by lia; f_equal; subst j; lia).
      pose proof (Z.pow_pos_nonneg 2 e2 ltac:(lia) Hpos).
      rewrite E2 in Em1. split; nia.
    + assert (E2 : 2 ^ j = 2 ^ (- e2) * 2 ^ (e2 - e1))
        by (rewrite <- Z.pow_add_r by lia; f_equal; subst j; lia).
      pose proof (Z.pow_pos_nonneg 2 (e2 - e1) ltac:(lia) ltac:(lia)).
      pose proof (Z.pow_pos_nonneg 2 (- e2) ltac:(lia) ltac:(lia)).
      rewrite E2 in Hlow, Hup. split; nia.
Qed.

(* ================================================================= *)
(** ** True division of ints *)

Lemma int_quotient_unfold (n d : Z) :
  0 < d ->
  let e' := Z.min (fexp prec emax (Zdigits2 (Z.abs n) - Zdigits2 d)) 0 in
  int_quotient n d =
    binary_round_aux prec emax (n <? 0) (Z.abs n * 2 ^ (- e') / d) e'
      (new_location d ((Z.abs n * 2 ^ (- e')) mod d)).
Proof.
  intros Hd e'. unfold int_quotient.
  rewrite (Z.abs_eq d) by lia.
  rewrite (div_core_spec (Z.abs n) d (Z.abs_nonneg n) Hd). fold e'.
  replace (d <? 0) with false by (symmetry; apply Z.ltb_ge; lia).
  now rewrite xorb_false_r.
Qed.

Lemma int_quotient_zero (d : Z) : 0 < d -> int_quotient 0 d = S754_zero false.
Proof.
  intros Hd. rewrite int_quotient_unfold by assumption. cbv zeta.
  change (Z.abs 0) with 0. rewrite Z.mul_0_l, Z.div_0_l, Z.mod_0_l by lia.
  assert (E : new_location d 0 = loc_Exact) by now apply new_location_exact.
  rewrite E. apply binary_round_aux_zero.
Qed.

Lemma int_quotient_finite (n d : Z) :
  0 < d -> Z.abs n < 2 ^ 1022 * d -> is_finite (int_quotient n d) = true.
Proof.
  intros Hd Hn.
  destruct (Z.eq_dec n 0) as [->|Hne]; [now rewrite int_quotient_zero|].
  rewrite int_quotient_unfold by assumption. cbv zeta.
  assert (Ha : 0 < Z.abs n) by lia.
  destruct (div_core_quotient (Z.abs n) d Ha Hd) as (Hq & Hpre & Hdig).
  apply binary_round_aux_finite; try assumption.
  pose proof (Zdigits2_gt d ltac:(lia)) as Hd1.
  pose proof (Zdigits2_nonneg d) as Hd0.
  assert (Hda : Zdigits2 (Z.abs n) <= 1022 + Zdigits2 d).
  { apply Zdigits2_upper; [lia|lia|]. rewrite Z.pow_add_r by lia.
    assert (2 ^ 1022 * d < 2 ^ 1022 * 2 ^ Zdigits2 d)
      by (apply Z.mul_lt_mono_pos_l; [reflexivity|assumption]).
    lia. }
  lia.
Qed.

(** [int_quotient] on quotients whose doubles are known: [1/3], [1/10],
    [100/6], a tie rounded to the even neighbour on either side, a
    quotient of two ints that are both beyond the double range, and a
    negative dividend with quotient zero. *)
Example int_quotient_examples :
  int_quotient 1 3 = S754_finite false 6004799503160661 (-54)
  /\ int_quotient 1 10 = S754_finite false 7205759403792794 (-56)
  /\ int_quotient 100 6 = S754_finite false 4691249611844267 (-48)
  /\ int_quotient (2 ^ 53 + 1) 1 = S754_finite false (2 ^ 52) 1
  /\ int_quotient (2 ^ 53 + 3) 1 = S754_finite false (2 ^ 52 + 2) 1
  /\ int_quotient (3 * 10 ^ 400) (10 ^ 400) = S754_finite false (3 * 2 ^ 51) (-51)
  /\ int_quotient (-7) 2 = S754_finite true (7 * 2 ^ 50) (-51)
  /\ int_quotient 0 (-3) = S754_zero true.
Proof. repeat split; vm_compute; reflexivity. Qed.

Lemma compare_int_scaled_opp (z m e : Z) :
  compare_int_scaled z (- m) e = CompOpp (compare_int_scaled (- z) m e).
Proof.
  unfold compare_int_scaled. destruct (0 <=? e); rewrite Z.mul_opp_l.
  - destruct (Z.compare_spec z (- (m * 2 ^ e))),
             (Z.compare_spec (- z) (m * 2 ^ e)); cbn [CompOpp];
      try reflexivity; lia.
  - destruct (Z.compare_spec (z * 2 ^ (- e)) (- m)),
             (Z.compare_spec (- (z * 2 ^ (- e))) m); cbn [CompOpp];
      try reflexivity; lia.
Qed.

(** For ints: the correctly rounded quotient [n / d] lies between any
    two integers that enclose the exact quotient, when the latter is
    below [2^53] in magnitude. *)
Lemma int_quotient_between (n d lo hi : Z) :
  0 < d -> Z.abs n < 2 ^ 53 * d -> lo * d <= n <= hi * d ->
  py_le (PyInt lo) (PyFloat (int_quotient n d)) = true
  /\ py_le (PyFloat (int_quotient n d)) (PyInt hi) = true.
Proof.
  intros Hd Hn [Hlo Hhi].
  unfold py_le, py_compare.
  destruct (Z.lt_trichotomy n 0) as [Hneg|[->|Hpos]].
  - rewrite int_quotient_unfold by assumption. cbv zeta.
    replace (n <? 0) with true by (symmetry; apply Z.ltb_lt; lia).
    pose proof (round_quotient_between true (Z.abs n) d (- hi) (- lo)
                  ltac:(lia) Hd Hn ltac:(lia)) as Hr.
    cbv zeta in Hr.
    destruct (binary_round_aux _ _ _ _ _) as [s|s| |s p e2]; try contradiction.
    + destruct Hr as (_ & H1 & H2). cbn [compare_int_float option_map].
      destruct (Z.compare_spec lo 0), (Z.compare_spec hi 0);
        cbn [CompOpp]; try lia; split; reflexivity.
    + destruct Hr as (-> & H1 & H2). cbn [compare_int_float option_map cond_Zopp].
      change (- Z.pos p) with (- (Z.pos p)).
      rewrite !compare_int_scaled_opp.
      destruct (compare_int_scaled (- lo) (Z.pos p) e2),
               (compare_int_scaled (- hi) (Z.pos p) e2);
        cbn [CompOpp]; try congruence; split; reflexivity.
  - rewrite int_quotient_zero by assumption. cbn [compare_int_float option_map].
    destruct (Z.compare_spec lo 0), (Z.compare_spec hi 0);
      cbn [CompOpp]; try nia; split; reflexivity.
  - rewrite int_quotient_unfold by assumption. cbv zeta.
    replace (n <? 0) with false by (symmetry; apply Z.ltb_ge; lia).
    rewrite (Z.abs_eq n) in * by lia.
    pose proof (round_quotient_between false n d lo hi Hpos Hd Hn
                  (conj Hlo Hhi)) as Hr.
    cbv zeta in Hr.
    destruct (binary_round_aux _ _ _ _ _) as [s|s| |s p e2]; try contradiction.
    + destruct Hr as (_ & H1 & H2). cbn [compare_int_float option_map].
      destruct (Z.compare_spec lo 0), (Z.compare_spec hi 0);
        cbn [CompOpp]; try lia; split; reflexivity.
    + destruct Hr as (-> & H1 & H2). cbn [compare_int_float option_map cond_Zopp].
      destruct (compare_int_scaled lo (Z.pos p) e2),
               (compare_int_scaled hi (Z.pos p) e2);
        cbn [CompOpp]; try congruence; split; reflexivity.
Qed.

(* ================================================================= *)
(** ** Arithmetic on qualities *)

Lemma int_to_float_cases (z : Z) :
  z <> 0 ->
  int_to_float z = Raise OverflowError
  \/ exists f, int_to_float z = Return f /\ is_zero f = false.
Proof.
  intros Hz. unfold int_to_float, binary_normalize.
  destruct z as [|p|p]; [contradiction| |].
  - destruct (binary_round_aligned false p 0) as (m & e & -> & Hm & He & Hd).
    pose proof (Zdigits2_nonneg (Z.pos p)).
    destruct (is_finite _); [right|now left].
    eexists. split; [reflexivity|]. apply binary_round_aux_nonzero; lia.
  - destruct (binary_round_aligned true p 0) as (m & e & -> & Hm & He & Hd).
    pose proof (Zdigits2_nonneg (Z.pos p)).
    destruct (is_finite _); [right|now left].
    eexists. split; [reflexivity|]. apply binary_round_aux_nonzero; lia.
Qed.

Lemma to_float_cases (x : number) :
  to_float x = Raise OverflowError \/ exists f, to_float x = Return f.
Proof.
  destruct x as [z|f]; [|right; now exists f].
  unfold to_float, int_to_float. destruct (is_finite _); [right|now left].
  eexists; reflexivity.
Qed.

Lemma py_mul_cases (x y : number) :
  py_mul x y = Raise OverflowError \/ exists t, py_mul x y = Return t.
Proof.
  destruct x as [a|f], y as [b|g]; cbn [py_mul];
    try (right; eexists; reflexivity).
  - destruct (to_float_cases (PyInt a)) as [->|(fa & ->)]; [now left|].
    right; eexists; reflexivity.
  - cbn [to_float bind].
    destruct (to_float_cases (PyInt b)) as [E|(fb & E)];
      cbn [to_float] in E; rewrite E; [now left|].
    right; eexists; reflexivity.
Qed.

Lemma py_add_cases (x y : number) :
  py_add x y = Raise OverflowError \/ exists t, py_add x y = Return t.
Proof.
  destruct x as [a|f], y as [b|g]; cbn [py_add];
    try (right; eexists; reflexivity).
  - destruct (to_float_cases (PyInt a)) as [->|(fa & ->)]; [now left|].
    right; eexists; reflexivity.
  - cbn [to_float bind].
    destruct (to_float_cases (PyInt b)) as [E|(fb & E)];
      cbn [to_float] in E; rewrite E; [now left|].
    right; eexists; reflexivity.
Qed.

(** Dividing by a positive int never raises [ZeroDivisionError]. *)
Lemma py_truediv_positive (t : number) (d : Z) :
  0 < d ->
  py_truediv t (PyInt d) = Raise OverflowError
  \/ exists f, py_truediv t (PyInt d) = Return (PyFloat f).
Proof.
  intros Hd. destruct t as [n|f]; cbn [py_truediv].
  - replace (d =? 0) with false by (symmetry; apply Z.eqb_neq; lia).
    destruct (is_finite _); [right|now left]. eexists; reflexivity.
  - cbn [to_float bind].
    destruct (int_to_float_cases d ltac:(lia)) as [->|(g & -> & Hg)]; [now left|].
    cbn [bind]. rewrite Hg. right; eexists; reflexivity.
Qed.

(** Dividing by the int 0 always raises [ZeroDivisionError]. *)
Lemma py_truediv_zero (t : number) :
  py_truediv t (PyInt 0) = Raise ZeroDivisionError.
Proof. destruct t; reflexivity. Qed.

Lemma weighted_quality_cases (s1 s2 : string) (q1 q2 : number) :
  0 < len s1 + len s2 ->
  Sequence.weighted_quality s1 q1 s2 q2 = Raise OverflowError
  \/ exists f, Sequence.weighted_quality s1 q1 s2 q2 = Return (PyFloat f).
Proof.
  intros Hd. unfold Sequence.weighted_quality.
  destruct (py_mul_cases (PyInt (len s1)) q1) as [->|(t1 & ->)]; [now left|].
  cbn [bind].
  destruct (py_mul_cases (PyInt (len s2)) q2) as [->|(t2 & ->)]; [now left|].
  cbn [bind].
  destruct (py_add_cases t1 t2) as [->|(t & ->)]; [now left|].
  cbn [bind]. now apply py_truediv_positive.
Qed.

Lemma weighted_quality_empty (q1 q2 : number) :
  Sequence.weighted_quality "" q1 "" q2 = Raise ZeroDivisionError.
Proof. destruct q1, q2; reflexivity. Qed.

Lemma add_unfold (a b : object) (sa sb : string) (qa qb : number) :
  ob_sequence a = Some sa -> ob_quality a = Some qa ->
  ob_sequence b = Some sb -> ob_quality b = Some qb ->
  Sequence.__add__ a b =
    (q <- Sequence.weighted_quality sa qa sb qb ;;
     Return (Object CSequence (Some (sa ++ sb)%string) (Some q))).
Proof.
  intros Hsa Hqa Hsb Hqb.
  unfold Sequence.__add__, get_sequence, get_quality.
  now rewrite Hsa, Hqa, Hsb, Hqb.
Qed.

Lemma py_min_int (x y : Z) : py_min (PyInt x) (PyInt y) = PyInt (Z.min x y).
Proof.
  unfold py_min, py_lt, py_compare, Z.min.
  rewrite (Z.compare_antisym y x). now destruct (y ?= x).
Qed.

Lemma py_max_int (x y : Z) : py_max (PyInt x) (PyInt y) = PyInt (Z.max x y).
Proof.
  unfold py_max, py_lt, py_compare, Z.max. now destruct (x ?= y).
Qed.

Lemma len_nonneg (s : string) : 0 <= len s.
Proof. unfold len. lia. Qed.

(* ================================================================= *)
(** ** Concatenation *)

(** C2. When the residues of both operands are empty, [a + b] raises
    [ZeroDivisionError], whatever the two qualities are: no quality is
    computed and no sequence is returned. *)
Theorem add_of_empty_sequences_raises (a b : object) (qa qb : number) :
  ob_sequence a = Some "" -> ob_quality a = Some qa ->
  ob_sequence b = Some "" -> ob_quality b = Some qb ->
  Sequence.__add__ a b = Raise ZeroDivisionError.
Proof.
  intros Hsa Hqa Hsb Hqb.
  rewrite (add_unfold a b "" "" qa qb Hsa Hqa Hsb Hqb).
  now rewrite weighted_quality_empty.
Qed.

Lemma add_of_empty_sequences_raises_witness :
  Sequence.__add__ (Sequence.call "" (PyInt 0)) (Sequence.call "" (PyInt 0)) =
    Raise ZeroDivisionError.
Proof.
  apply (add_of_empty_sequences_raises
           (Sequence.call "" (PyInt 0)) (Sequence.call "" (PyInt 0))
           (PyInt 0) (PyInt 0)); reflexivity.
Defined.

(** C3 as stated fails on a quality beyond the double range:
    [Sequence("A", 10**400) + Sequence("", 0)] has a non-empty result
    to build, yet the division raises [OverflowError]. *)
Lemma add_overflows_on_huge_quality :
  0 < len "A" + len ""
  /\ Sequence.__add__ (Sequence.call "A" (PyInt (10 ^ 400)))
                      (Sequence.call "" (PyInt 0)) = Raise OverflowError.
Proof. split; [reflexivity|vm_compute; reflexivity]. Qed.

(** C3, as amended. When the two residue strings are not both empty,
    [a + b] never raises [ZeroDivisionError]: either the quality
    arithmetic overflows the double range and [OverflowError] is raised,
    or the result is a plain [Sequence] whose residues are those of [a]
    followed by those of [b] and whose quality is the float value of
    [(len(a)*qa + len(b)*qb) / (len(a)+len(b))]. For int qualities whose
    exact average is below [2^1022] in magnitude it is the correctly
    rounded quotient of the two exact integers; for float qualities it is
    the quotient of the rounded sum of the rounded products. On
    [Sequence("AC", 10) + Sequence("ACGT", 20)] the residues are
    ["ACACGT"] and the quality is the double nearest to 100/6. *)
Theorem add_concatenates_and_averages
  (a b : object) (sa sb : string) (qa qb : number) :
  ob_sequence a = Some sa -> ob_quality a = Some qa ->
  ob_sequence b = Some sb -> ob_quality b = Some qb ->
  0 < len sa + len sb ->
  (Sequence.__add__ a b = Raise OverflowError
   \/ exists q,
        Sequence.weighted_quality sa qa sb qb = Return (PyFloat q)
        /\ Sequence.__add__ a b =
             Return (Object CSequence (Some (sa ++ sb)%string) (Some (PyFloat q))))
  /\ (forall za zb,
        qa = PyInt za -> qb = PyInt zb ->
        Z.abs (len sa * za + len sb * zb) < 2 ^ 1022 * (len sa + len sb) ->
        Sequence.__add__ a b =
          Return (Object CSequence (Some (sa ++ sb)%string)
                    (Some (PyFloat (int_quotient (len sa * za + len sb * zb)
                                                 (len sa + len sb))))))
  /\ (forall fa fb,
        qa = PyFloat fa -> qb = PyFloat fb ->
        len sa + len sb < 2 ^ 1023 ->
        exists la lb d,
          int_to_float (len sa) = Return la
          /\ int_to_float (len sb) = Return lb
          /\ int_to_float (len sa + len sb) = Return d
          /\ Sequence.__add__ a b =
               Return (Object CSequence (Some (sa ++ sb)%string)
                         (Some (PyFloat
                                  (SFdiv prec emax
                                     (SFadd prec emax (SFmul prec emax la fa)
                                                      (SFmul prec emax lb fb))
                                     d)))))
  /\ Sequence.__add__ (Sequence.call "AC" (PyInt 10))
                      (Sequence.call "ACGT" (PyInt 20)) =
       Return (Object CSequence (Some "ACACGT")
                 (Some (PyFloat (int_quotient 100 6))))
  /\ int_quotient 100 6 = S754_finite false 4691249611844267 (-48).
Proof.
  intros Hsa Hqa Hsb Hqb Hlen.
  rewrite (add_unfold a b sa sb qa qb Hsa Hqa Hsb Hqb).
  pose proof (len_nonneg sa) as Hla. pose proof (len_nonneg sb) as Hlb.
  split; [|split; [|split; [|split]]].
  - destruct (weighted_quality_cases sa sb qa qb Hlen) as [->|(f & ->)];
      [now left|right]. exists f. split; reflexivity.
  - intros za zb -> -> Hbound.
    unfold Sequence.weighted_quality. cbn [py_mul py_add bind py_truediv].
    replace (len sa + len sb =? 0) with false by (symmetry; apply Z.eqb_neq; lia).
    now rewrite int_quotient_finite.
  - intros fa fb -> -> Hbound.
    destruct (int_to_float_returns (len sa) ltac:(lia)) as (la & Ela & _).
    destruct (int_to_float_returns (len sb) ltac:(lia)) as (lb & Elb & _).
    destruct (int_to_float_returns (len sa + len sb) ltac:(lia)) as (d & Ed & Hd).
    exists la, lb, d. repeat split; try assumption.
    unfold Sequence.weighted_quality.
    cbn [py_mul py_add bind py_truediv to_float].
    rewrite Ela; cbn [py_mul py_add bind py_truediv to_float].
    rewrite Elb; cbn [py_mul py_add bind py_truediv to_float].
    rewrite Ed; cbn [bind].
    now rewrite Hd by lia.
  - vm_compute. reflexivity.
  - vm_compute. reflexivity.
Qed.

Lemma add_concatenates_and_averages_witness :
  Sequence.__add__ (Sequence.call "AC" (PyInt 10))
                   (Sequence.call "ACGT" (PyInt 20)) =
    Return (Object CSequence (Some "ACACGT")
              (Some (PyFloat (int_quotient (len "AC" * 10 + len "ACGT" * 20)
                                           (len "AC" + len "ACGT"))))).
Proof.
  refine (proj1 (proj2 (add_concatenates_and_averages
            (Sequence.call "AC" (PyInt 10)) (Sequence.call "ACGT" (PyInt 20))
            "AC" "ACGT" (PyInt 10) (PyInt 20) _ _ _ _ _))
            10 20 _ _ _);
    try reflexivity.
Defined.

(** C10 as stated fails, on ints beyond [2^53] and on floats: the
    average of the quality [2^53 + 1] with itself is rounded down to
    [2^53], below both inputs, and the average of the float [0.1]
    (itself the quality of a sum, [1 / 10]) with itself, weighted 1 and
    2, comes out one unit in the last place above [0.1]. *)
Lemma add_quality_leaves_input_range :
  (let big := PyInt (2 ^ 53 + 1) in
   let q := PyFloat (S754_finite false (2 ^ 52) 1) in
   Sequence.__add__ (Sequence.call "A" big) (Sequence.call "C" big) =
     Return (Object CSequence (Some "AC") (Some q))
   /\ py_le (py_min big big) q = false)
  /\ (let tenth := PyFloat (S754_finite false 7205759403792794 (-56)) in
      let q := PyFloat (S754_finite false 7205759403792795 (-56)) in
      py_truediv (PyInt 1) (PyInt 10) = Return tenth
      /\ Sequence.__add__ (Sequence.call "A" tenth) (Sequence.call "CC" tenth) =
           Return (Object CSequence (Some "ACC") (Some q))
      /\ py_le q (py_max tenth tenth) = false).
Proof.
  cbv zeta. repeat split; vm_compute; reflexivity.
Qed.

(** C10, as amended. When the two residue strings are not both empty
    and both qualities are ints below [2^53] in magnitude, [a + b]
    returns a sequence whose quality lies between the smaller and the
    larger of the two input qualities, inclusive. *)
Theorem add_quality_within_input_range
  (a b : object) (sa sb : string) (za zb : Z) :
  ob_sequence a = Some sa -> ob_quality a = Some (PyInt za) ->
  ob_sequence b = Some sb -> ob_quality b = Some (PyInt zb) ->
  0 < len sa + len sb ->
  Z.abs za < 2 ^ 53 -> Z.abs zb < 2 ^ 53 ->
  exists q,
    Sequence.__add__ a b =
      Return (Object CSequence (Some (sa ++ sb)%string) (Some q))
    /\ py_le (py_min (PyInt za) (PyInt zb)) q = true
    /\ py_le q (py_max (PyInt za) (PyInt zb)) = true.
Proof.
  intros Hsa Hqa Hsb Hqb Hlen Hza Hzb.
  rewrite (add_unfold a b sa sb _ _ Hsa Hqa Hsb Hqb).
  pose proof (len_nonneg sa) as Hla. pose proof (len_nonneg sb) as Hlb.
  set (la := len sa) in *. set (lb := len sb) in *.
  assert (Hn : Z.abs (la * za + lb * zb) < 2 ^ 53 * (la + lb)).
  { set (B := 2 ^ 53) in *. nia. }
  unfold Sequence.weighted_quality. fold la lb.
  cbn [py_mul py_add bind py_truediv].
  replace (la + lb =? 0) with false by (symmetry; apply Z.eqb_neq; lia).
  rewrite int_quotient_finite; [|lia|].
  2:{ assert (2 ^ 53 * (la + lb) <= 2 ^ 1022 * (la + lb)); [|lia].
      apply Z.mul_le_mono_nonneg_r; [lia|].
      apply Z.pow_le_mono_r; lia. }
  cbn [bind]. eexists. split; [reflexivity|].
  rewrite py_min_int, py_max_int.
  apply int_quotient_between; [lia|assumption|nia].
Qed.

Lemma add_quality_within_input_range_witness :
  exists q,
    Sequence.__add__ (Sequence.call "AC" (PyInt 10))
                     (Sequence.call "ACGT" (PyInt 20)) =
      Return (Object CSequence (Some "ACACGT") (Some q))
    /\ py_le (py_min (PyInt 10) (PyInt 20)) q = true
    /\ py_le q (py_max (PyInt 10) (PyInt 20)) = true.
Proof.
  apply (add_quality_within_input_range
           (Sequence.call "AC" (PyInt 10)) (Sequence.call "ACGT" (PyInt 20))
           "AC" "ACGT" 10 20); reflexivity.
Defined.

(* ================================================================= *)
(** ** Further properties: construction and missing attributes *)

Lemma issubset_set_cases (al : list ascii) (s : string) :
  (issubset (py_set s) al = true /\ over al s)
  \/ (issubset (py_set s) al = false /\ has_outsider al s).
Proof.
  destruct (issubset (py_set s) al) eqn:E.
  - left. split; [reflexivity|now apply issubset_set_true].
  - right. split; [reflexivity|].
    unfold issubset in E.
    assert (H : exists c, In c (py_set s) /\ mem c al = false).
    { induction (py_set s) as [|c l IH]; [discriminate E|].
      cbn [forallb] in E. destruct (mem c al) eqn:Ec.
      - destruct (IH E) as (c' & Hc' & Hm). exists c'. split; [now right|assumption].
      - exists c. split; [now left|assumption]. }
    destruct H as (c & Hc & Hm). exists c. split.
    + unfold py_set in Hc. now apply nodup_In in Hc.
    + intros Hin. apply mem_In in Hin. congruence.
Qed.

Lemma over_not_outsider (al : list ascii) (s : string) :
  over al s -> has_outsider al s -> False.
Proof. intros Ho (c & Hc & Hn). apply Hn, Ho, Hc. Qed.

Lemma RNASequence_call_invalid (s : string) (q : number) :
  has_outsider RNASequence.alphabet s ->
  RNASequence.call s q = Raise (Exception "The input sequence isn't valid RNA").
Proof.
  intros H. unfold RNASequence.call, RNASequence.__init__.
  now rewrite (issubset_set_false _ _ H).
Qed.

(** X1. [RNASequence(s, q)] returns an instance exactly when every
    character of [s] is one of A, C, G, U, and the instance then holds
    [s] and [q] unchanged; the empty string is accepted. *)
Theorem RNASequence_accepts_exactly_its_alphabet (s : string) (q : number) :
  ((exists o, RNASequence.call s q = Return o) <-> over RNASequence.alphabet s)
  /\ (forall o, RNASequence.call s q = Return o ->
        o = Object CRNASequence (Some s) (Some q))
  /\ RNASequence.call "" q = Return (Object CRNASequence (Some "") (Some q)).
Proof.
  split; [split|split].
  - intros (o & Ho).
    destruct (issubset_set_cases RNASequence.alphabet s) as [(_ & H)|(_ & H)];
      [assumption|].
    rewrite (RNASequence_call_invalid s q H) in Ho. discriminate Ho.
  - intros H. eexists. now apply RNASequence_call_valid.
  - intros o. unfold RNASequence.call, RNASequence.__init__.
    destruct (issubset _ _); [now intros [= <-]|discriminate].
  - reflexivity.
Qed.

(** X2. [DNASequence(s, q)] never raises. It prints [s] first in every
    case; when [s] is over {A,C,G,T} nothing else is printed and the
    instance holds [s] and [q]; otherwise the complaint is printed too
    and the instance has neither attribute. *)
Theorem DNASequence_call_always_returns (s : string) (q : number) :
  (over DNASequence.alphabet s
   /\ DNASequence.call s q = (Object CDNASequence (Some s) (Some q), [s]))
  \/ (has_outsider DNASequence.alphabet s
      /\ DNASequence.call s q =
           (Object CDNASequence None None,
            [s; "The input sequence isn't valid DNA input"])).
Proof.
  destruct (issubset_set_cases DNASequence.alphabet s) as [(_ & H)|(_ & H)].
  - left. split; [assumption|now apply DNASequence_call_valid].
  - right. split; [assumption|now apply DNASequence_call_invalid].
Qed.

(** X3. On an object without a [sequence] attribute, such as the
    instance left by [DNASequence] on an invalid input, every method
    fails with [AttributeError] for [sequence]: [reverse_complement],
    [transcribe], [__str__], and [__add__] with the object on either
    side, whatever the other operand is. *)
Theorem methods_need_the_sequence_attribute (o : object) :
  ob_sequence o = None ->
  DNASequence.reverse_complement o = Raise (AttributeError "sequence")
  /\ DNASequence.transcribe o = Raise (AttributeError "sequence")
  /\ (forall float_repr,
        Sequence.__str__ float_repr o = Raise (AttributeError "sequence"))
  /\ (forall other, Sequence.__add__ o other = Raise (AttributeError "sequence"))
  /\ (forall other, Sequence.__add__ other o = Raise (AttributeError "sequence")).
Proof.
  intros H.
  unfold DNASequence.reverse_complement, DNASequence.transcribe,
    Sequence.__str__, Sequence.__add__, get_sequence.
  rewrite H. repeat split.
  intros other. now destruct (ob_sequence other).
Qed.

Lemma methods_need_the_sequence_attribute_witness :
  let o := fst (DNASequence.call "AXG" (PyInt 27)) in
  DNASequence.reverse_complement o = Raise (AttributeError "sequence")
  /\ DNASequence.transcribe o = Raise (AttributeError "sequence")
  /\ (forall float_repr,
        Sequence.__str__ float_repr o = Raise (AttributeError "sequence"))
  /\ (forall other, Sequence.__add__ o other = Raise (AttributeError "sequence"))
  /\ (forall other, Sequence.__add__ other o = Raise (AttributeError "sequence")).
Proof.
  apply (methods_need_the_sequence_attribute
           (fst (DNASequence.call "AXG" (PyInt 27)))).
  reflexivity.
Defined.

(** X4. No operation gives back a [DNASequence]: whatever [__add__],
    [reverse_complement] and [transcribe] return is a plain [Sequence]
    (an [RNASequence] for [transcribe]), so calling [.reverse_complement()]
    or [.transcribe()] on the result raises [AttributeError]. *)
Theorem results_are_not_DNASequences (a b r : object) :
  Sequence.__add__ a b = Return r
  \/ DNASequence.reverse_complement a = Return r
  \/ DNASequence.transcribe a = Return r ->
  ob_class r <> CDNASequence
  /\ method_reverse_complement r = Raise (AttributeError "reverse_complement")
  /\ method_transcribe r = Raise (AttributeError "transcribe").
Proof.
  intros H.
  assert (Hc : ob_class r = CSequence \/ ob_class r = CRNASequence).
  { destruct H as [H|[H|H]].
    - left. unfold Sequence.__add__ in H.
      destruct (get_sequence a); [|discriminate]. cbn [bind] in H.
      destruct (get_sequence b); [|discriminate]. cbn [bind] in H.
      destruct (get_quality a); [|discriminate]. cbn [bind] in H.
      destruct (get_quality b); [|discriminate]. cbn [bind] in H.
      destruct (Sequence.weighted_quality _ _ _ _); [|discriminate].
      cbn [bind] in H. now injection H as <-.
    - left. now apply (reverse_complement_result_is_plain a r).
    - right. unfold DNASequence.transcribe in H.
      destruct (get_sequence a); [|discriminate]. cbn [bind] in H.
      destruct (get_quality a); [|discriminate]. cbn [bind] in H.
      unfold RNASequence.call, RNASequence.__init__ in H.
      destruct (issubset _ _); [|discriminate]. now injection H as <-. }
  unfold method_reverse_complement, method_transcribe.
  destruct Hc as [-> | ->]; repeat split; discriminate.
Qed.

Lemma results_are_not_DNASequences_witness :
  let r := Object CSequence (Some "ACT") (Some (PyInt 27)) in
  ob_class r <> CDNASequence
  /\ method_reverse_complement r = Raise (AttributeError "reverse_complement")
  /\ method_transcribe r = Raise (AttributeError "transcribe").
Proof.
  apply (results_are_not_DNASequences
           (fst (DNASequence.call "AGT" (PyInt 27)))
           (fst (DNASequence.call "AGT" (PyInt 27)))
           (Object CSequence (Some "ACT") (Some (PyInt 27)))).
  right. left. reflexivity.
Defined.

(* ================================================================= *)
(** ** Further properties: transcribe and reverse_complement *)

Lemma of_list_app (l1 l2 : list ascii) :
  string_of_list_ascii (l1 ++ l2) =
    (string_of_list_ascii l1 ++ string_of_list_ascii l2)%string.
Proof. induction l1 as [|c l1 IH]; simpl; [reflexivity|now rewrite IH]. Qed.

Lemma length_of_list (l : list ascii) :
  String.length (string_of_list_ascii l) = List.length l.
Proof. now rewrite <- length_chars, chars_of_list. Qed.

Lemma transcribe_unfold (o : object) (s : string) (q : number) :
  ob_sequence o = Some s -> ob_quality o = Some q ->
  DNASequence.transcribe o =
    RNASequence.call
      (string_of_list_ascii (map DNASequence.transcribe_base (chars s))) q.
Proof.
  intros Hs Hq. unfold DNASequence.transcribe, get_sequence, get_quality.
  now rewrite Hs, Hq.
Qed.

(** X5. [transcribe] succeeds exactly on residues made of A, C, G, T and
    U: a [U] already present passes through, and any other character
    makes the [RNASequence] constructor raise its [Exception]. *)
Theorem transcribe_accepts_T_and_RNA_letters
  (o : object) (s : string) (q : number) :
  ob_sequence o = Some s -> ob_quality o = Some q ->
  (over ("T"%char :: RNASequence.alphabet) s ->
   DNASequence.transcribe o =
     Return (Object CRNASequence
               (Some (string_of_list_ascii
                        (map DNASequence.transcribe_base (chars s))))
               (Some q)))
  /\ (has_outsider ("T"%char :: RNASequence.alphabet) s ->
      DNASequence.transcribe o =
        Raise (Exception "The input sequence isn't valid RNA")).
Proof.
  intros Hs Hq. rewrite (transcribe_unfold o s q Hs Hq). split.
  - intros Hover. apply RNASequence_call_valid.
    intros c. rewrite chars_of_list, in_map_iff. intros (b & <- & Hb).
    apply Hover in Hb. simpl in Hb.
    destruct Hb as [<-|[<-|[<-|[<-|[<-|[]]]]]]; simpl; tauto.
  - intros (c & Hc & Hout). apply RNASequence_call_invalid.
    exists c. split.
    + rewrite chars_of_list, in_map_iff. exists c. split; [|assumption].
      apply transcribe_base_other. intros ->. apply Hout. now left.
    + intros Hin. apply Hout. now right.
Qed.

Lemma transcribe_accepts_T_and_RNA_letters_witness :
  let o := Object CDNASequence (Some "AUT") (Some (PyInt 3)) in
  (over ("T"%char :: RNASequence.alphabet) "AUT" ->
   DNASequence.transcribe o =
     Return (Object CRNASequence
               (Some (string_of_list_ascii
                        (map DNASequence.transcribe_base (chars "AUT"))))
               (Some (PyInt 3))))
  /\ (has_outsider ("T"%char :: RNASequence.alphabet) "AUT" ->
      DNASequence.transcribe o =
        Raise (Exception "The input sequence isn't valid RNA")).
Proof.
  apply (transcribe_accepts_T_and_RNA_letters
           (Object CDNASequence (Some "AUT") (Some (PyInt 3))) "AUT" (PyInt 3));
    reflexivity.
Defined.

(** X6. The transcript of a DNA sequence that contains a [T] cannot be
    reverse-complemented: [DNASequence.reverse_complement] applied to it
    raises [KeyError] for ['U'], which has no entry in the complement
    table. *)
Theorem reverse_complement_of_transcript_raises
  (o : object) (s : string) (q : number) :
  ob_sequence o = Some s -> ob_quality o = Some q ->
  over DNASequence.alphabet s -> In "T"%char (chars s) ->
  exists r,
    DNASequence.transcribe o = Return r
    /\ DNASequence.reverse_complement r = Raise (KeyError "U").
Proof.
  intros Hs Hq Hover HT.
  eexists. split; [exact (transcribe_valid o s q Hs Hq Hover)|].
  set (t := string_of_list_ascii (map DNASequence.transcribe_base (chars s))).
  destruct (rc_loop_invalid (rev (chars t))) as (c & Hc & Hout & Hraise).
  { exists "U"%char. split; [|by_cases_on_chars].
    apply -> in_rev. subst t. rewrite chars_of_list, in_map_iff.
    exists "T"%char. split; [reflexivity|assumption]. }
  assert (Ec : c = "U"%char).
  { apply in_rev in Hc. subst t. rewrite chars_of_list, in_map_iff in Hc.
    destruct Hc as (b & <- & Hb). apply Hover in Hb. simpl in Hb.
    destruct Hb as [<-|[<-|[<-|[<-|[]]]]]; try reflexivity;
      elim Hout; simpl; tauto. }
  subst c. unfold DNASequence.reverse_complement, get_sequence.
  cbn [ob_sequence bind]. now rewrite Hraise.
Qed.

Lemma reverse_complement_of_transcript_raises_witness :
  exists r,
    DNASequence.transcribe (fst (DNASequence.call "AGT" (PyInt 27))) = Return r
    /\ DNASequence.reverse_complement r = Raise (KeyError "U").
Proof.
  apply (reverse_complement_of_transcript_raises
           (fst (DNASequence.call "AGT" (PyInt 27))) "AGT" (PyInt 27)).
  - reflexivity.
  - reflexivity.
  - by_cases_on_chars.
  - simpl. tauto.
Defined.

Lemma add_returns_fields (a b c : object) (sa sb : string) (qa qb : number) :
  ob_sequence a = Some sa -> ob_quality a = Some qa ->
  ob_sequence b = Some sb -> ob_quality b = Some qb ->
  Sequence.__add__ a b = Return c ->
  exists f,
    Sequence.weighted_quality sa qa sb qb = Return f
    /\ c = Object CSequence (Some (sa ++ sb)%string) (Some f).
Proof.
  intros Hsa Hqa Hsb Hqb H.
  rewrite (add_unfold a b sa sb qa qb Hsa Hqa Hsb Hqb) in H.
  destruct (Sequence.weighted_quality sa qa sb qb) as [f|e]; [|discriminate].
  cbn [bind] in H. injection H as <-. now exists f.
Qed.

Lemma over_append (al : list ascii) (s1 s2 : string) :
  over al s1 -> over al s2 -> over al (s1 ++ s2).
Proof.
  intros H1 H2 c. rewrite chars_append, in_app_iff. intros [H|H]; auto.
Qed.

(** X7. Reverse-complementing a sum of two DNA sequences gives the
    reverse complement of the second followed by that of the first: if
    [a + b] returns [c], then [DNASequence.reverse_complement(c)] has the
    residues of [reverse_complement(b)] followed by those of
    [reverse_complement(a)], and the quality of [c]. *)
Theorem reverse_complement_of_sum
  (a b c : object) (sa sb : string) (qa qb : number) :
  ob_sequence a = Some sa -> ob_quality a = Some qa ->
  ob_sequence b = Some sb -> ob_quality b = Some qb ->
  over DNASequence.alphabet sa -> over DNASequence.alphabet sb ->
  Sequence.__add__ a b = Return c ->
  exists ra rb,
    DNASequence.reverse_complement a = Return (Object CSequence (Some ra) (Some qa))
    /\ DNASequence.reverse_complement b = Return (Object CSequence (Some rb) (Some qb))
    /\ DNASequence.reverse_complement c =
         Return (Object CSequence (Some (rb ++ ra)%string) (ob_quality c)).
Proof.
  intros Hsa Hqa Hsb Hqb Ha Hb Hadd.
  destruct (add_returns_fields a b c sa sb qa qb Hsa Hqa Hsb Hqb Hadd)
    as (f & _ & ->).
  eexists; eexists.
  split; [exact (reverse_complement_valid a sa qa Hsa Hqa Ha)|].
  split; [exact (reverse_complement_valid b sb qb Hsb Hqb Hb)|].
  rewrite (reverse_complement_valid
             (Object CSequence (Some (sa ++ sb)%string) (Some f))
             (sa ++ sb) f eq_refl eq_refl (over_append _ _ _ Ha Hb)).
  cbn [ob_quality].
  now rewrite chars_append, rev_app_distr, map_app, of_list_app.
Qed.

Lemma reverse_complement_of_sum_witness :
  let a := fst (DNASequence.call "AC" (PyInt 10)) in
  let b := fst (DNASequence.call "ACGT" (PyInt 20)) in
  let c := Object CSequence (Some "ACACGT") (Some (PyFloat (int_quotient 100 6))) in
  exists ra rb,
    DNASequence.reverse_complement a =
      Return (Object CSequence (Some ra) (Some (PyInt 10)))
    /\ DNASequence.reverse_complement b =
         Return (Object CSequence (Some rb) (Some (PyInt 20)))
    /\ DNASequence.reverse_complement c =
         Return (Object CSequence (Some (rb ++ ra)%string) (ob_quality c)).
Proof.
  apply (reverse_complement_of_sum
           (fst (DNASequence.call "AC" (PyInt 10)))
           (fst (DNASequence.call "ACGT" (PyInt 20)))
           (Object CSequence (Some "ACACGT") (Some (PyFloat (int_quotient 100 6))))
           "AC" "ACGT" (PyInt 10) (PyInt 20));
    try reflexivity; by_cases_on_chars.
Defined.

(** X8. Transcribing a sum of two DNA sequences gives the transcript of
    the first followed by that of the second: if [a + b] returns [c],
    then [DNASequence.transcribe(c)] is an [RNASequence] with the
    residues of [transcribe(a)] followed by those of [transcribe(b)],
    and the quality of [c]. *)
Theorem transcribe_of_sum
  (a b c : object) (sa sb : string) (qa qb : number) :
  ob_sequence a = Some sa -> ob_quality a = Some qa ->
  ob_sequence b = Some sb -> ob_quality b = Some qb ->
  over DNASequence.alphabet sa -> over DNASequence.alphabet sb ->
  Sequence.__add__ a b = Return c ->
  exists ta tb,
    DNASequence.transcribe a = Return (Object CRNASequence (Some ta) (Some qa))
    /\ DNASequence.transcribe b = Return (Object CRNASequence (Some tb) (Some qb))
    /\ DNASequence.transcribe c =
         Return (Object CRNASequence (Some (ta ++ tb)%string) (ob_quality c)).
Proof.
  intros Hsa Hqa Hsb Hqb Ha Hb Hadd.
  destruct (add_returns_fields a b c sa sb qa qb Hsa Hqa Hsb Hqb Hadd)
    as (f & _ & ->).
  eexists; eexists.
  split; [exact (transcribe_valid a sa qa Hsa Hqa Ha)|].
  split; [exact (transcribe_valid b sb qb Hsb Hqb Hb)|].
  rewrite (transcribe_valid
             (Object CSequence (Some (sa ++ sb)%string) (Some f))
             (sa ++ sb) f eq_refl eq_refl (over_append _ _ _ Ha Hb)).
  cbn [ob_quality].
  now rewrite chars_append, map_app, of_list_app.
Qed.

Lemma transcribe_of_sum_witness :
  let a := fst (DNASequence.call "AC" (PyInt 10)) in
  let b := fst (DNASequence.call "ACGT" (PyInt 20)) in
  let c := Object CSequence (Some "ACACGT") (Some (PyFloat (int_quotient 100 6))) in
  exists ta tb,
    DNASequence.transcribe a =
      Return (Object CRNASequence (Some ta) (Some (PyInt 10)))
    /\ DNASequence.transcribe b =
         Return (Object CRNASequence (Some tb) (Some (PyInt 20)))
    /\ DNASequence.transcribe c =
         Return (Object CRNASequence (Some (ta ++ tb)%string) (ob_quality c)).
Proof.
  apply (transcribe_of_sum
           (fst (DNASequence.call "AC" (PyInt 10)))
           (fst (DNASequence.call "ACGT" (PyInt 20)))
           (Object CSequence (Some "ACACGT") (Some (PyFloat (int_quotient 100 6))))
           "AC" "ACGT" (PyInt 10) (PyInt 20));
    try reflexivity; by_cases_on_chars.
Defined.

(** X9. The reverse complement of a DNA sequence over {A,C,G,T} is again
    over {A,C,G,T} and has the same length, so [DNASequence] accepts its
    residues. *)
Theorem reverse_complement_stays_DNA (o : object) (s : string) (q : number) :
  ob_sequence o = Some s -> ob_quality o = Some q ->
  over DNASequence.alphabet s ->
  exists r,
    DNASequence.reverse_complement o = Return (Object CSequence (Some r) (Some q))
    /\ String.length r = String.length s
    /\ over DNASequence.alphabet r
    /\ DNASequence.call r q = (Object CDNASequence (Some r) (Some q), [r]).
Proof.
  intros Hs Hq Hover.
  eexists. split; [exact (reverse_complement_valid o s q Hs Hq Hover)|].
  assert (Hr : over DNASequence.alphabet
                 (string_of_list_ascii (map pairing (rev (chars s))))).
  { intros c. rewrite chars_of_list, in_map_iff.
    intros (b & <- & Hb). apply pairing_closed, Hover. now apply in_rev. }
  split; [|split; [exact Hr|now apply DNASequence_call_valid]].
  now rewrite length_of_list, length_map, length_rev, length_chars.
Qed.

Lemma reverse_complement_stays_DNA_witness :
  exists r,
    DNASequence.reverse_complement (fst (DNASequence.call "GATTACA" (PyInt 14))) =
      Return (Object CSequence (Some r) (Some (PyInt 14)))
    /\ String.length r = String.length "GATTACA"
    /\ over DNASequence.alphabet r
    /\ DNASequence.call r (PyInt 14) =
         (Object CDNASequence (Some r) (Some (PyInt 14)), [r]).
Proof.
  apply (reverse_complement_stays_DNA
           (fst (DNASequence.call "GATTACA" (PyInt 14))) "GATTACA" (PyInt 14)).
  - reflexivity.
  - reflexivity.
  - by_cases_on_chars.
Defined.

(* ================================================================= *)
(** ** Further properties: the quality of a sum *)

Lemma SFadd_comm (x y : float) : SFadd prec emax x y = SFadd prec emax y x.
Proof.
  destruct x as [sx|sx| |sx mx ex], y as [sy|sy| |sy my ey];
    try reflexivity;
    try (destruct sx, sy; reflexivity).
  cbn [SFadd]. now rewrite Z.min_comm, Z.add_comm.
Qed.

Lemma to_float_error (x : number) (e : exn) :
  to_float x = Raise e -> e = OverflowError.
Proof.
  destruct (to_float_cases x) as [->|(f & ->)]; [now intros [= <-]|discriminate].
Qed.

Lemma py_add_comm (x y : number) : py_add x y = py_add y x.
Proof.
  destruct x as [a|f], y as [b|g]; cbn [py_add to_float bind].
  - now rewrite Z.add_comm.
  - destruct (int_to_float a); cbn [bind]; [now rewrite SFadd_comm|reflexivity].
  - destruct (int_to_float b); cbn [bind]; [now rewrite SFadd_comm|reflexivity].
  - now rewrite SFadd_comm.
Qed.

Lemma py_mul_error (x y : number) (e : exn) :
  py_mul x y = Raise e -> e = OverflowError.
Proof.
  destruct (py_mul_cases x y) as [->|(t & ->)]; [now intros [= <-]|discriminate].
Qed.

Lemma weighted_quality_comm (s1 s2 : string) (q1 q2 : number) :
  Sequence.weighted_quality s1 q1 s2 q2 = Sequence.weighted_quality s2 q2 s1 q1.
Proof.
  unfold Sequence.weighted_quality.
  rewrite (Z.add_comm (len s2) (len s1)).
  destruct (py_mul (PyInt (len s1)) q1) as [t1|e1] eqn:E1,
           (py_mul (PyInt (len s2)) q2) as [t2|e2] eqn:E2; cbn [bind].
  - now rewrite py_add_comm.
  - reflexivity.
  - reflexivity.
  - now rewrite (py_mul_error _ _ _ E1), (py_mul_error _ _ _ E2).
Qed.

(** X10. The quality of a sum does not depend on the order of the
    operands: [a + b] and [b + a] raise the same exception or return
    sequences of the same quality, with residues [sa ++ sb] and
    [sb ++ sa]. *)
Theorem add_quality_is_symmetric
  (a b : object) (sa sb : string) (qa qb : number) :
  ob_sequence a = Some sa -> ob_quality a = Some qa ->
  ob_sequence b = Some sb -> ob_quality b = Some qb ->
  (forall e, Sequence.__add__ a b = Raise e <-> Sequence.__add__ b a = Raise e)
  /\ (forall r,
        Sequence.__add__ a b = Return r ->
        ob_sequence r = Some (sa ++ sb)%string
        /\ Sequence.__add__ b a =
             Return (Object CSequence (Some (sb ++ sa)%string) (ob_quality r))).
Proof.
  intros Hsa Hqa Hsb Hqb.
  rewrite (add_unfold a b sa sb qa qb Hsa Hqa Hsb Hqb).
  rewrite (add_unfold b a sb sa qb qa Hsb Hqb Hsa Hqa).
  rewrite (weighted_quality_comm sb sa qb qa).
  destruct (Sequence.weighted_quality sa qa sb qb) as [f|e0]; cbn [bind]; split.
  - intros e. split; discriminate.
  - intros r [= <-]. split; reflexivity.
  - intros e. reflexivity.
  - intros r. discriminate.
Qed.

Lemma add_quality_is_symmetric_witness :
  let a := Sequence.call "AC" (PyInt 10) in
  let b := Sequence.call "ACGT" (PyInt 20) in
  (forall e, Sequence.__add__ a b = Raise e <-> Sequence.__add__ b a = Raise e)
  /\ (forall r,
        Sequence.__add__ a b = Return r ->
        ob_sequence r = Some ("AC" ++ "ACGT")%string
        /\ Sequence.__add__ b a =
             Return (Object CSequence (Some ("ACGT" ++ "AC")%string) (ob_quality r))).
Proof.
  apply (add_quality_is_symmetric
           (Sequence.call "AC" (PyInt 10)) (Sequence.call "ACGT" (PyInt 20))
           "AC" "ACGT" (PyInt 10) (PyInt 20)); reflexivity.
Defined.

Lemma py_eq_of_le (z : Z) (f : float) :
  py_le (PyInt z) (PyFloat f) = true -> py_le (PyFloat f) (PyInt z) = true ->
  py_eq (PyFloat f) (PyInt z) = true.
Proof.
  unfold py_le, py_eq, py_compare.
  destruct (compare_int_float z f) as [[]|]; cbn [option_map CompOpp];
    intros H1 H2; try reflexivity; discriminate.
Qed.

(** When every operand that has residues carries the int quality [z],
    the weighted average is [z] itself. *)
Lemma weighted_quality_constant (sa sb : string) (za zb z : Z) :
  0 < len sa + len sb -> Z.abs z < 2 ^ 53 ->
  len sa = 0 \/ za = z -> len sb = 0 \/ zb = z ->
  exists f,
    Sequence.weighted_quality sa (PyInt za) sb (PyInt zb) = Return (PyFloat f)
    /\ py_eq (PyFloat f) (PyInt z) = true.
Proof.
  intros Hlen Hz Ha Hb.
  pose proof (len_nonneg sa) as Hla. pose proof (len_nonneg sb) as Hlb.
  set (la := len sa) in *. set (lb := len sb) in *.
  assert (EN : la * za + lb * zb = z * (la + lb))
    by (destruct Ha as [Ha|Ha], Hb as [Hb|Hb]; nia).
  unfold Sequence.weighted_quality. fold la lb.
  cbn [py_mul py_add bind py_truediv].
  replace (la + lb =? 0) with false by (symmetry; apply Z.eqb_neq; lia).
  rewrite EN.
  assert (Hn : Z.abs (z * (la + lb)) < 2 ^ 53 * (la + lb)).
  { rewrite Z.abs_mul, (Z.abs_eq (la + lb)) by lia.
    apply Z.mul_lt_mono_pos_r; lia. }
  rewrite int_quotient_finite; [|lia|].
  2:{ assert (2 ^ 53 * (la + lb) <= 2 ^ 1022 * (la + lb)); [|lia].
      apply Z.mul_le_mono_nonneg_r; [lia|].
      apply Z.pow_le_mono_r; lia. }
  eexists. split; [reflexivity|].
  destruct (int_quotient_between (z * (la + lb)) (la + lb) z z
              ltac:(lia) Hn ltac:(lia)) as [H1 H2].
  now apply py_eq_of_le.
Qed.

(** X11. Two sequences of the same int quality [z], below [2^53] in
    magnitude and not both empty, add up to a sequence whose quality
    equals [z] (as a float). *)
Theorem add_keeps_a_common_quality
  (a b : object) (sa sb : string) (z : Z) :
  ob_sequence a = Some sa -> ob_quality a = Some (PyInt z) ->
  ob_sequence b = Some sb -> ob_quality b = Some (PyInt z) ->
  0 < len sa + len sb -> Z.abs z < 2 ^ 53 ->
  exists f,
    Sequence.__add__ a b =
      Return (Object CSequence (Some (sa ++ sb)%string) (Some (PyFloat f)))
    /\ py_eq (PyFloat f) (PyInt z) = true.
Proof.
  intros Hsa Hqa Hsb Hqb Hlen Hz.
  rewrite (add_unfold a b sa sb _ _ Hsa Hqa Hsb Hqb).
  destruct (weighted_quality_constant sa sb z z z Hlen Hz) as (f & -> & Hf);
    [now right|now right|].
  exists f. split; [reflexivity|assumption].
Qed.

Lemma add_keeps_a_common_quality_witness :
  exists f,
    Sequence.__add__ (Sequence.call "ACG" (PyInt 27)) (Sequence.call "TTTTGCA" (PyInt 27)) =
      Return (Object CSequence (Some ("ACG" ++ "TTTTGCA")%string) (Some (PyFloat f)))
    /\ py_eq (PyFloat f) (PyInt 27) = true.
Proof.
  apply (add_keeps_a_common_quality
           (Sequence.call "ACG" (PyInt 27)) (Sequence.call "TTTTGCA" (PyInt 27))
           "ACG" "TTTTGCA" 27); reflexivity.
Defined.

(** X12. Adding an empty sequence, on either side and whatever its int
    quality, to a non-empty sequence of int quality [z] below [2^53]
    in magnitude returns the residues unchanged and a quality equal to
    [z]. *)
Theorem add_empty_sequence_is_neutral
  (a e : object) (sa : string) (z ze : Z) :
  ob_sequence a = Some sa -> ob_quality a = Some (PyInt z) ->
  ob_sequence e = Some "" -> ob_quality e = Some (PyInt ze) ->
  0 < len sa -> Z.abs z < 2 ^ 53 ->
  (exists f,
     Sequence.__add__ a e =
       Return (Object CSequence (Some sa) (Some (PyFloat f)))
     /\ py_eq (PyFloat f) (PyInt z) = true)
  /\ (exists f,
        Sequence.__add__ e a =
          Return (Object CSequence (Some sa) (Some (PyFloat f)))
        /\ py_eq (PyFloat f) (PyInt z) = true).
Proof.
  intros Hsa Hqa Hse Hqe Hlen Hz. split.
  - rewrite (add_unfold a e sa "" _ _ Hsa Hqa Hse Hqe).
    destruct (weighted_quality_constant sa "" z ze z) as (f & -> & Hf);
      [change (len "") with 0; lia|assumption|now right|now left|].
    exists f. rewrite append_empty_r. split; [reflexivity|assumption].
  - rewrite (add_unfold e a "" sa _ _ Hse Hqe Hsa Hqa).
    destruct (weighted_quality_constant "" sa ze z z) as (f & -> & Hf);
      [change (len "") with 0; lia|assumption|now left|now right|].
    exists f. split; [reflexivity|assumption].
Qed.

Lemma add_empty_sequence_is_neutral_witness :
  let a := Sequence.call "ACGTC" (PyInt 14) in
  let e := Sequence.call "" (PyInt 0) in
  (exists f,
     Sequence.__add__ a e =
       Return (Object CSequence (Some "ACGTC") (Some (PyFloat f)))
     /\ py_eq (PyFloat f) (PyInt 14) = true)
  /\ (exists f,
        Sequence.__add__ e a =
          Return (Object CSequence (Some "ACGTC") (Some (PyFloat f)))
        /\ py_eq (PyFloat f) (PyInt 14) = true).
Proof.
  apply (add_empty_sequence_is_neutral
           (Sequence.call "ACGTC" (PyInt 14)) (Sequence.call "" (PyInt 0))
           "ACGTC" 14 0); reflexivity.
Defined.

(** X13. Sums associate on residues but not on quality: when
    [(a + b) + c] and [a + (b + c)] both return, the two results have
    the same residues; their qualities can differ by rounding, as for
    the qualities 0, 1, 10 on lengths 1, 1, 6 (7.625 against
    7.624999999999999). *)
Theorem add_is_associative_on_residues
  (a b c ab bc l r : object) :
  Sequence.__add__ a b = Return ab -> Sequence.__add__ ab c = Return l ->
  Sequence.__add__ b c = Return bc -> Sequence.__add__ a bc = Return r ->
  ob_sequence l = ob_sequence r
  /\ (let x := Sequence.call "A" (PyInt 0) in
      let y := Sequence.call "C" (PyInt 1) in
      let z := Sequence.call "GGGGGG" (PyInt 10) in
      (xy <- Sequence.__add__ x y ;; Sequence.__add__ xy z) =
        Return (Object CSequence (Some "ACGGGGGG")
                  (Some (PyFloat (S754_finite false 8584986789675008 (-50)))))
      /\ (yz <- Sequence.__add__ y z ;; Sequence.__add__ x yz) =
           Return (Object CSequence (Some "ACGGGGGG")
                     (Some (PyFloat (S754_finite false 8584986789675007 (-50)))))).
Proof.
  intros Hab Hl Hbc Hr. split; [|cbv zeta; split; vm_compute; reflexivity].
  assert (Hfields : forall x y z, Sequence.__add__ x y = Return z ->
            exists sx sy qx qy q,
              ob_sequence x = Some sx /\ ob_quality x = Some qx
              /\ ob_sequence y = Some sy /\ ob_quality y = Some qy
              /\ z = Object CSequence (Some (sx ++ sy)%string) (Some q)).
  { intros x y z H. unfold Sequence.__add__, get_sequence, get_quality in H.
    destruct (ob_sequence x) as [sx|]; [|discriminate]. cbn [bind] in H.
    destruct (ob_sequence y) as [sy|]; [|discriminate]. cbn [bind] in H.
    destruct (ob_quality x) as [qx|]; [|discriminate]. cbn [bind] in H.
    destruct (ob_quality y) as [qy|]; [|discriminate]. cbn [bind] in H.
    destruct (Sequence.weighted_quality sx qx sy qy) as [q|]; [|discriminate].
    cbn [bind] in H. injection H as <-.
    exists sx, sy, qx, qy, q. repeat split. }
  destruct (Hfields _ _ _ Hab) as (sa & sb & qa & qb & qab & Hsa & _ & Hsb & _ & ->).
  destruct (Hfields _ _ _ Hl) as (sab & sc & ? & ? & ? & Hsab & _ & Hsc & _ & ->).
  destruct (Hfields _ _ _ Hbc) as (sb' & sc' & ? & ? & ? & Hsb' & _ & Hsc' & _ & ->).
  destruct (Hfields _ _ _ Hr) as (sa' & sbc & ? & ? & ? & Hsa' & _ & Hsbc & _ & ->).
  cbn [ob_sequence] in *.
  injection Hsab as <-. injection Hsbc as <-.
  rewrite Hsa in Hsa'. injection Hsa' as <-.
  rewrite Hsb in Hsb'. injection Hsb' as <-.
  rewrite Hsc in Hsc'. injection Hsc' as <-.
  now rewrite append_assoc.
Qed.

Lemma add_is_associative_on_residues_witness :
  let a := Sequence.call "A" (PyInt 0) in
  let b := Sequence.call "C" (PyInt 1) in
  let c := Sequence.call "GGGGGG" (PyInt 10) in
  let ab := Object CSequence (Some "AC") (Some (PyFloat (int_quotient 1 2))) in
  let bc := Object CSequence (Some "CGGGGGG") (Some (PyFloat (int_quotient 61 7))) in
  let l := Object CSequence (Some "ACGGGGGG")
             (Some (PyFloat (S754_finite false 8584986789675008 (-50)))) in
  let r := Object CSequence (Some "ACGGGGGG")
             (Some (PyFloat (S754_finite false 8584986789675007 (-50)))) in
  ob_sequence l = ob_sequence r.
Proof.
  refine (proj1 (add_is_associative_on_residues
            (Sequence.call "A" (PyInt 0)) (Sequence.call "C" (PyInt 1))
            (Sequence.call "GGGGGG" (PyInt 10))
            (Object CSequence (Some "AC") (Some (PyFloat (int_quotient 1 2))))
            (Object CSequence (Some "CGGGGGG") (Some (PyFloat (int_quotient 61 7))))
            (Object CSequence (Some "ACGGGGGG")
               (Some (PyFloat (S754_finite false 8584986789675008 (-50)))))
            (Object CSequence (Some "ACGGGGGG")
               (Some (PyFloat (S754_finite false 8584986789675007 (-50)))))
            _ _ _ _));
    vm_compute; reflexivity.
Defined.

(* ================================================================= *)
(** ** Further properties: __str__ *)

Lemma str_int_inj (z1 z2 : Z) : str_int z1 = str_int z2 -> z1 = z2.
Proof.
  assert (Hnil : forall z, Z.to_int z <> Decimal.Pos Decimal.Nil
                           /\ Z.to_int z <> Decimal.Neg Decimal.Nil).
  { intros [|p|p]; cbn [Z.to_int]; split; try discriminate;
      intros [= H]; now apply Unsigned.to_uint_nonnil in H. }
  unfold str_int. intros H.
  apply (f_equal NilZero.int_of_string) in H.
  destruct (Hnil z1) as [H1 H1'], (Hnil z2) as [H2 H2'].
  rewrite !NilZero.isi in H by assumption.
  injection H as H. now apply DecimalZ.to_int_inj.
Qed.

Lemma append_separator_inj (sep : ascii) (s1 s2 t1 t2 : string) :
  ~ In sep (chars s1) -> ~ In sep (chars s2) ->
  (s1 ++ String sep t1 = s2 ++ String sep t2)%string ->
  s1 = s2 /\ t1 = t2.
Proof.
  revert s2. induction s1 as [|c s1 IH]; intros [|d s2] H1 H2 E;
    cbn [String.append] in E.
  - injection E as ->. now split.
  - injection E as <- _. elim H2. now left.
  - injection E as -> _. elim H1. now left.
  - injection E as -> E.
    destruct (IH s2) as [-> ->]; try assumption; [| |now split].
    + intros H. apply H1. now right.
    + intros H. apply H2. now right.
Qed.

(** X14. [__str__] tells sequences apart: for residues without a newline
    (any DNA or RNA residues) and int qualities, two objects that print
    as the same text have the same residues and the same quality. The
    text does not show the class. *)
Theorem str_determines_residues_and_quality
  (float_repr : float -> string) (o1 o2 : object)
  (s1 s2 : string) (z1 z2 : Z) (text : string) :
  ob_sequence o1 = Some s1 -> ob_quality o1 = Some (PyInt z1) ->
  ob_sequence o2 = Some s2 -> ob_quality o2 = Some (PyInt z2) ->
  ~ In "010"%char (chars s1) -> ~ In "010"%char (chars s2) ->
  Sequence.__str__ float_repr o1 = Return text ->
  Sequence.__str__ float_repr o2 = Return text ->
  s1 = s2 /\ z1 = z2.
Proof.
  intros Hs1 Hq1 Hs2 Hq2 Hn1 Hn2.
  unfold Sequence.__str__, get_sequence, get_quality.
  rewrite Hs1, Hq1, Hs2, Hq2. cbn [bind format_number].
  intros [= <-] [= E].
  apply append_separator_inj in E; try assumption.
  destruct E as [-> E]. split; [reflexivity|].
  injection E as E. now apply str_int_inj.
Qed.

Lemma str_determines_residues_and_quality_witness :
  "AGU"%string = "AGU"%string /\ 27 = 27.
Proof.
  apply (str_determines_residues_and_quality
           (fun _ => ""%string)
           (Object CRNASequence (Some "AGU") (Some (PyInt 27)))
           (Object CSequence (Some "AGU") (Some (PyInt 27)))
           "AGU" "AGU" 27 27
           ("Sequence: AGU" ++ String "010" "Quality: 27")%string);
    try reflexivity; by_cases_on_chars.
Defined.

(* ================================================================= *)
(** ** Further properties: which base the KeyError names *)

Lemma rc_loop_app (l1 l2 : list ascii) :
  (forall c, In c l1 -> In c DNASequence.alphabet) ->
  forall rc_seq,
    DNASequence.rc_loop (l1 ++ l2) rc_seq =
      DNASequence.rc_loop l2 (rc_seq ++ string_of_list_ascii (map pairing l1)).
Proof.
  induction l1 as [|b l1 IH]; intros Hall rc_seq;
    cbn [app DNASequence.rc_loop map string_of_list_ascii].
  - now rewrite append_empty_r.
  - rewrite lookup_complement.
    assert (Hb : mem b DNASequence.alphabet = true)
      by (apply mem_In, Hall; now left).
    rewrite Hb; cbn [bind].
    rewrite IH by (intros c Hc; apply Hall; now right).
    now rewrite append_assoc.
Qed.

(** X15. The [KeyError] of [reverse_complement] names the last character
    of the residues that has no complement: when the residues are
    [pre ++ c ++ post] with [c] outside {A,C,G,T} and [post] over
    {A,C,G,T}, the call raises [KeyError(c)], whatever [pre] is and
    even if the object has no quality. *)
Theorem reverse_complement_names_last_unpaired
  (o : object) (pre post : string) (c : ascii) :
  ob_sequence o = Some (pre ++ String c post)%string ->
  ~ In c DNASequence.alphabet ->
  over DNASequence.alphabet post ->
  DNASequence.reverse_complement o = Raise (KeyError c).
Proof.
  intros Hs Hc Hpost.
  unfold DNASequence.reverse_complement, get_sequence. rewrite Hs. cbn [bind].
  rewrite chars_append. change (chars (String c post)) with (c :: chars post).
  rewrite rev_app_distr. cbn [rev]. rewrite <- app_assoc.
  rewrite rc_loop_app by (intros b Hb; apply Hpost; now apply in_rev).
  cbn [app DNASequence.rc_loop]. rewrite lookup_complement.
  destruct (mem c DNASequence.alphabet) eqn:E; [|reflexivity].
  apply mem_In in E. contradiction.
Qed.

Lemma reverse_complement_names_last_unpaired_witness :
  DNASequence.reverse_complement (Sequence.call "AXGZT" (PyInt 27)) =
    Raise (KeyError "Z").
Proof.
  apply (reverse_complement_names_last_unpaired
           (Sequence.call "AXGZT" (PyInt 27)) "AXG" "T" "Z"%char).
  - reflexivity.
  - by_cases_on_chars.
  - by_cases_on_chars.
Defined.
